(** * MAP super-resolution solver: options, construction and size queries

    A shallow embedding of [src/optimization/map_solver.cpp]:
    [MapSolverOptions::AdjustThresholdsAdaptively], the [MapSolver]
    constructor, [AddRegularizer], [GetNumDataPoints] and
    [GetRegularizationParameterSum].

    - [int] is a 32-bit two's-complement integer: a [Z] with the wrap-around
      written out ([Int32.wrap]);
    - [double] is IEEE 754 binary64: the primitive [float] of the standard
      library, whose operations are specified by [SpecFloat];
    - glog's [CHECK_*] macros abort the process: a failed check is the
      [Fatal] result, carrying the message of the check;
    - member functions are state transformers on the object ([Method]). *)

From Stdlib Require Import ZArith String List Bool Lia Floats Uint63.
Import ListNotations.
Local Open Scope Z_scope.

(* ================================================================= *)
(** ** Machine integers *)

Module Int32.

Definition modulus : Z := 2 ^ 32.

(** [std::numeric_limits<int>::max()] and [min()]. *)
Definition max : Z := 2147483647.
Definition min : Z := -2147483648.

Definition in_range (z : Z) : Prop := min <= z <= max.

(** The value an [int] holds after an operation whose exact result is [z]. *)
Definition wrap (z : Z) : Z := (z - min) mod modulus + min.

(** [a * b] on two [int]s. *)
Definition mul (a b : Z) : Z := wrap (a * b).

(** [std::vector::size()] stored in an [int]. *)
Definition of_size (n : nat) : Z := wrap (Z.of_nat n).

End Int32.

(** An [int] widened to [long] keeps its value. *)
Definition long_of_int (z : Z) : Z := z.

(* ================================================================= *)
(** ** Fatal checks and member functions *)

Inductive result (A : Type) : Type :=
| Ok (a : A)
| Fatal (msg : string).

Arguments Ok {A} a.
Arguments Fatal {A} msg.

(** A member function of an object of type [St] that returns an [A]. *)
Definition Method (St A : Type) : Type := St -> result (A * St).

Class Monad (M : Type -> Type) : Type := {
  ret : forall {A : Type}, A -> M A;
  bind : forall {A B : Type}, M A -> (A -> M B) -> M B
}.

#[export] Instance Monad_result : Monad result := {
  ret := fun A a => Ok a;
  bind := fun A B c k =>
    match c with
    | Ok a => k a
    | Fatal msg => Fatal msg
    end
}.

#[export] Instance Monad_Method (St : Type) : Monad (Method St) := {
  ret := fun A a s => Ok (a, s);
  bind := fun A B c k s =>
    match c s with
    | Ok (a, s') => k a s'
    | Fatal msg => Fatal msg
    end
}.

Declare Scope monad_scope.
Delimit Scope monad_scope with monad.

Notation "x <- c ;; k" := (bind c (fun x => k))
  (at level 61, c at next level, right associativity) : monad_scope.
Notation "c ;; k" := (bind c (fun _ => k))
  (at level 61, right associativity) : monad_scope.

Local Open Scope monad_scope.

(** Reading and updating the object. *)
Definition gets {St A : Type} (f : St -> A) : Method St A :=
  fun s => Ok (f s, s).

Definition modify {St : Type} (f : St -> St) : Method St unit :=
  fun s => Ok (tt, f s).

(** A check inside a member function. *)
Definition lift {St A : Type} (r : result A) : Method St A :=
  fun s =>
    match r with
    | Ok a => Ok (a, s)
    | Fatal msg => Fatal msg
    end.

Definition is_fatal {A : Type} (r : result A) : bool :=
  match r with
  | Ok _ => false
  | Fatal _ => true
  end.

(** glog: [CHECK_GT(a, b) << msg], [CHECK_EQ], [CHECK_LE]. *)
Definition CHECK_GT (a b : Z) (msg : string) : result unit :=
  if b <? a then Ok tt else Fatal msg.

Definition CHECK_EQ (a b : Z) (msg : string) : result unit :=
  if a =? b then Ok tt else Fatal msg.

Definition CHECK_LE (a b : Z) (msg : string) : result unit :=
  if a <=? b then Ok tt else Fatal msg.

(** [v[i]] on a [std::vector]. *)
Definition vector_at {A : Type} (v : list A) (i : nat) : result A :=
  match nth_error v i with
  | Some a => Ok a
  | None => Fatal "vector index out of range"
  end.

(* ================================================================= *)
(** ** Doubles *)

Definition double : Set := float.

(** The implicit conversion of an [int] to [double] (exact: an [int] has
    at most 31 significant bits). *)
Definition double_of_int (n : Z) : double :=
  if n <? 0 then (- of_uint63 (Uint63.of_Z (- n)))%float
  else of_uint63 (Uint63.of_Z n).

(* ================================================================= *)
(** ** MapSolverOptions *)

Inductive LeastSquaresSolver : Set :=
| CG_SOLVER
| LBFGS_SOLVER.

(** Modelled from the spec: the struct is declared in
    [optimization/map_solver.h]. The first seven fields are the ones
    [map_solver.cpp] reads or writes; [verbose] is the verbosity field of
    the spec's data model. *)
Record MapSolverOptions : Set := {
  least_squares_solver : LeastSquaresSolver;
  use_numerical_differentiation : bool;
  numerical_differentiation_step : double;
  split_channels : bool;
  gradient_norm_threshold : double;
  cost_decrease_threshold : double;
  parameter_variation_threshold : double;
  verbose : bool
}.

Definition set_gradient_norm_threshold (v : double) (o : MapSolverOptions)
  : MapSolverOptions :=
  {| least_squares_solver := least_squares_solver o;
     use_numerical_differentiation := use_numerical_differentiation o;
     numerical_differentiation_step := numerical_differentiation_step o;
     split_channels := split_channels o;
     gradient_norm_threshold := v;
     cost_decrease_threshold := cost_decrease_threshold o;
     parameter_variation_threshold := parameter_variation_threshold o;
     verbose := verbose o |}.

Definition set_cost_decrease_threshold (v : double) (o : MapSolverOptions)
  : MapSolverOptions :=
  {| least_squares_solver := least_squares_solver o;
     use_numerical_differentiation := use_numerical_differentiation o;
     numerical_differentiation_step := numerical_differentiation_step o;
     split_channels := split_channels o;
     gradient_norm_threshold := gradient_norm_threshold o;
     cost_decrease_threshold := v;
     parameter_variation_threshold := parameter_variation_threshold o;
     verbose := verbose o |}.

Definition set_parameter_variation_threshold (v : double) (o : MapSolverOptions)
  : MapSolverOptions :=
  {| least_squares_solver := least_squares_solver o;
     use_numerical_differentiation := use_numerical_differentiation o;
     numerical_differentiation_step := numerical_differentiation_step o;
     split_channels := split_channels o;
     gradient_norm_threshold := gradient_norm_threshold o;
     cost_decrease_threshold := cost_decrease_threshold o;
     parameter_variation_threshold := v;
     verbose := verbose o |}.

(** [MapSolverOptions::AdjustThresholdsAdaptively]. *)
Definition AdjustThresholdsAdaptively
  (num_parameters : Z) (regularization_parameter_sum : double)
  : Method MapSolverOptions unit :=
  let threshold_scale :=
    (double_of_int num_parameters * regularization_parameter_sum)%float in
  if (threshold_scale <? 1)%float then
    ret tt  (* Only scale up if needed, not down. *)
  else
    modify (fun o =>
      set_gradient_norm_threshold
        (gradient_norm_threshold o * threshold_scale)%float o) ;;
    modify (fun o =>
      set_cost_decrease_threshold
        (cost_decrease_threshold o * threshold_scale)%float o) ;;
    modify (fun o =>
      set_parameter_variation_threshold
        (parameter_variation_threshold o * threshold_scale)%float o).

(* ================================================================= *)
(** ** Collaborators of the solver *)

(** [cv::Size]: two [int]s. *)
Record Size : Set := {
  width : Z;
  height : Z
}.

(** Modelled from the spec: the interpolation modes of the pixel buffer's
    resize operation (declared with [ImageData], outside
    [map_solver.cpp]): nearest neighbour, and a smoothing one. *)
Inductive ResizeInterpolationMethod : Set :=
| INTERPOLATE_NEAREST
| INTERPOLATE_LINEAR.

(** The pixel buffer [ImageData], through the three operations the solver
    calls. [ResizeImage] resizes in place: here it returns the resized
    buffer. *)
Class PixelBufferOps (ImageData : Type) : Type := {
  ImageData_GetNumChannels : ImageData -> Z;
  ImageData_GetImageSize : ImageData -> Size;
  ImageData_ResizeImage :
    ImageData -> Size -> ResizeInterpolationMethod -> ImageData
}.

(** The forward model [ImageModel], through its scale factor. *)
Class ImageModelOps (ImageModel : Type) : Type := {
  ImageModel_GetDownsamplingScale : ImageModel -> Z
}.

(* ================================================================= *)
(** ** MapSolver *)

(** The fields of [MapSolver] and of its base [Solver]. [Regularizer]
    stands for [std::shared_ptr<Regularizer>]. *)
Record MapSolver (ImageModel ImageData Regularizer : Type) : Type := {
  image_model_ : ImageModel;
  print_solver_output_ : bool;
  num_channels_ : Z;
  image_size_ : Size;
  observations_ : list ImageData;
  regularizers_ : list (Regularizer * double)
}.

Arguments Build_MapSolver {ImageModel ImageData Regularizer}.
Arguments image_model_ {ImageModel ImageData Regularizer} m.
Arguments print_solver_output_ {ImageModel ImageData Regularizer} m.
Arguments num_channels_ {ImageModel ImageData Regularizer} m.
Arguments image_size_ {ImageModel ImageData Regularizer} m.
Arguments observations_ {ImageModel ImageData Regularizer} m.
Arguments regularizers_ {ImageModel ImageData Regularizer} m.

Section MapSolverDefinitions.

Context {ImageModel ImageData Regularizer : Type}.
Context {model_ops : ImageModelOps ImageModel}.
Context {buffer_ops : PixelBufferOps ImageData}.

Local Abbreviation Solver := (MapSolver ImageModel ImageData Regularizer).

(** The loop [for (int i = 1; i < low_res_images.size(); ++i)] of the
    constructor, over the images at indices 1, 2, ... *)
Fixpoint check_channel_counts (images : list ImageData) (num_channels : Z)
  : result unit :=
  match images with
  | [] => Ok tt
  | image :: images' =>
      CHECK_EQ (ImageData_GetNumChannels image) num_channels
        "Image channel counts do not match up." ;;
      check_channel_counts images' num_channels
  end.

(** The loop that fills [observations_]: copy, resize, [push_back]. *)
Definition resize_observations (low_res_images : list ImageData)
  (image_size : Size) : list ImageData :=
  fold_left
    (fun observations low_res_image =>
       let observation :=
         ImageData_ResizeImage low_res_image image_size INTERPOLATE_NEAREST in
       observations ++ [observation])
    low_res_images [].

(** [MapSolver::MapSolver]. [reserve] only sets the capacity of the vector
    and has no counterpart here. *)
Definition MapSolver_new (image_model : ImageModel)
  (low_res_images : list ImageData) (print_solver_output : bool)
  : result Solver :=
  let num_observations := Int32.of_size (length low_res_images) in
  CHECK_GT num_observations 0 "Cannot super-resolve with 0 low-res images." ;;
  first_image <- vector_at low_res_images 0 ;;
  let num_channels := ImageData_GetNumChannels first_image in
  check_channel_counts (skipn 1 low_res_images) num_channels ;;
  let upsampling_scale := ImageModel_GetDownsamplingScale image_model in
  lr_image <- vector_at low_res_images 0 ;;
  let lr_image_size := ImageData_GetImageSize lr_image in
  let image_size :=
    {| width := Int32.mul (width lr_image_size) upsampling_scale;
       height := Int32.mul (height lr_image_size) upsampling_scale |} in
  ret {| image_model_ := image_model;
         print_solver_output_ := print_solver_output;
         num_channels_ := num_channels;
         image_size_ := image_size;
         observations_ := resize_observations low_res_images image_size;
         regularizers_ := [] |}.

Definition set_regularizers (regularizers : list (Regularizer * double))
  (s : Solver) : Solver :=
  {| image_model_ := image_model_ s;
     print_solver_output_ := print_solver_output_ s;
     num_channels_ := num_channels_ s;
     image_size_ := image_size_ s;
     observations_ := observations_ s;
     regularizers_ := regularizers |}.

(** [MapSolver::AddRegularizer]: [push_back] of the pair. *)
Definition AddRegularizer (regularizer : Regularizer)
  (regularization_parameter : double) : Method Solver unit :=
  modify (fun s =>
    set_regularizers
      (regularizers_ s ++ [(regularizer, regularization_parameter)]) s).

(** Modelled from the spec: [GetNumPixels] is defined in
    [optimization/map_solver.h]; the pixel count is width times height of
    the high-resolution size, a product of the two [int] fields of
    [cv::Size]. *)
Definition GetNumPixels : Method Solver Z :=
  gets (fun s => Int32.mul (width (image_size_ s)) (height (image_size_ s))).

(** Modelled from the spec: [GetNumChannels] is defined in
    [optimization/map_solver.h]; it returns the channel count fixed at
    construction. *)
Definition GetNumChannels : Method Solver Z :=
  gets (fun s => num_channels_ s).

(** [MapSolver::GetNumDataPoints]. The product is formed on [int]s and
    widened to [long] afterwards. *)
Definition GetNumDataPoints : Method Solver Z :=
  pixels <- GetNumPixels ;;
  channels <- GetNumChannels ;;
  let num_data_points := long_of_int (Int32.mul pixels channels) in
  lift (CHECK_LE num_data_points (long_of_int Int32.max)
          "Number of data points exceeds maximum size.") ;;
  pixels' <- GetNumPixels ;;
  channels' <- GetNumChannels ;;
  ret (Int32.mul pixels' channels').

(** [MapSolver::GetRegularizationParameterSum]. *)
Definition GetRegularizationParameterSum : Method Solver double :=
  regularizers <- gets (fun s => regularizers_ s) ;;
  ret (fold_left
         (fun regularization_parameter_sum regularizer_and_parameter =>
            (regularization_parameter_sum
             + snd regularizer_and_parameter)%float)
         regularizers 0%float).

End MapSolverDefinitions.

(* ================================================================= *)
(** ** The sum of the registered weights, as the specification words it *)

(** The running total of the first [k] weights, in registration order. *)
Fixpoint partial_weight_sum (weights : list double) (k : nat) : double :=
  match k with
  | O => 0%float
  | S k' => (partial_weight_sum weights k' + nth k' weights 0%float)%float
  end.

(** The sum of all the weights; [0.0] when there is none. *)
Definition sum_of_weights (weights : list double) : double :=
  partial_weight_sum weights (List.length weights).

(* ================================================================= *)
(** ** Values of binary64 numbers *)

Module Binary64.

Definition fexp64 : Z -> Z := fexp prec emax.

(** The value [m * 2 ^ e] of a mantissa and an exponent, scaled by
    [2 ^ K] so that it is an integer at the negative exponents of the
    format. *)
Definition scaled (K m e : Z) : Z := m * 2 ^ (e + K).

(** A mantissa that has the exponent the format gives its magnitude. *)
Definition canonical (m : positive) (e : Z) : Prop :=
  fexp64 (Zpos (digits2_pos m) + e) = e.

(** "Less than or equal", as a result of [SFcompare]. *)
Definition le_result (c : option comparison) : bool :=
  match c with
  | Some Lt | Some Eq => true
  | _ => false
  end.

(** The binary64 number one. *)
Definition SFone64 : spec_float := S754_finite false 4503599627370496 (-52).

End Binary64.

(* ================================================================= *)
(** ** Concrete collaborators, for instances of the theorems *)

Definition example_options : MapSolverOptions :=
  {| least_squares_solver := CG_SOLVER;
     use_numerical_differentiation := false;
     numerical_differentiation_step := 0x1p-20%float;
     split_channels := false;
     gradient_norm_threshold := 0x1p-20%float;
     cost_decrease_threshold := 0x1p-20%float;
     parameter_variation_threshold := 0x1p-20%float;
     verbose := false |}.

(** A pixel buffer given by its channel count, its size and its samples. *)
Record RasterImage : Type := {
  raster_channels : Z;
  raster_size : Size;
  raster_pixel : Z -> Z -> Z -> Z
}.

(** Each pixel of the resized raster takes the sample of the source pixel
    it falls on. *)
Definition raster_resize (image : RasterImage) (size : Size)
  (method : ResizeInterpolationMethod) : RasterImage :=
  {| raster_channels := raster_channels image;
     raster_size := size;
     raster_pixel := fun x y c =>
       raster_pixel image
         (x * width (raster_size image) / width size)
         (y * height (raster_size image) / height size) c |}.

#[export] Instance RasterImage_ops : PixelBufferOps RasterImage := {
  ImageData_GetNumChannels := raster_channels;
  ImageData_GetImageSize := raster_size;
  ImageData_ResizeImage := raster_resize
}.

(** A forward model reduced to its scale factor. *)
Record ScaleModel : Set := {
  downsampling_scale : Z
}.

#[export] Instance ScaleModel_ops : ImageModelOps ScaleModel := {
  ImageModel_GetDownsamplingScale := downsampling_scale
}.

Definition example_image (tag : Z) : RasterImage :=
  {| raster_channels := 3;
     raster_size := {| width := 4; height := 3 |};
     raster_pixel := fun x y c => tag + x + 4 * y + 12 * c |}.

Definition gray_image : RasterImage :=
  {| raster_channels := 1;
     raster_size := {| width := 4; height := 3 |};
     raster_pixel := fun x y c => x + 4 * y |}.

(** A single-channel image of 32768 x 32768 pixels. *)
Definition large_image : RasterImage :=
  {| raster_channels := 1;
     raster_size := {| width := 32768; height := 32768 |};
     raster_pixel := fun x y c => 0 |}.

Definition small_solver : MapSolver ScaleModel RasterImage string :=
  {| image_model_ := {| downsampling_scale := 2 |};
     print_solver_output_ := false;
     num_channels_ := 3;
     image_size_ := {| width := 100; height := 100 |};
     observations_ := [];
     regularizers_ := [] |}.

(* ================================================================= *)
(** ** Calls in sequence, and the contract of the pixel buffer *)

(** Member functions called one after the other on the same object. *)
Fixpoint call_all {St : Type} (calls : list (Method St unit))
  : Method St unit :=
  match calls with
  | [] => ret tt
  | call :: calls' => call ;; call_all calls'
  end.

(** What the constructor expects of [ImageData::ResizeImage] ("rescale the
    LR observations to the HR image size"): the resized buffer has the
    requested size and the channels it had. *)
Class PixelBufferLaws (ImageData : Type) {ops : PixelBufferOps ImageData}
  : Prop := {
  ResizeImage_size : forall image size method,
    ImageData_GetImageSize (ImageData_ResizeImage image size method) = size;
  ResizeImage_channels : forall image size method,
    ImageData_GetNumChannels (ImageData_ResizeImage image size method)
    = ImageData_GetNumChannels image
}.

(* ================================================================= *)
(** ** Classes of binary64 numbers *)

Module Binary64Class.

(** A number (not "not a number") of the given sign. *)
Definition has_sign (sx : bool) (x : spec_float) : Prop :=
  match x with
  | S754_nan => False
  | S754_zero s | S754_infinity s | S754_finite s _ _ => s = sx
  end.

Definition finite_or_zero (x : spec_float) : Prop :=
  match x with
  | S754_zero _ | S754_finite _ _ _ => True
  | _ => False
  end.

(** At least zero: a zero of either sign, a positive number or plus
    infinity. *)
Definition SFnonneg (x : spec_float) : Prop :=
  SFleb (S754_zero false) x = true.

End Binary64Class.

(* ================================================================= *)
(** ** More concrete collaborators *)

(** A three-channel image of another size than [example_image]. *)
Definition wide_image : RasterImage :=
  {| raster_channels := 3;
     raster_size := {| width := 8; height := 5 |};
     raster_pixel := fun x y c => x + 8 * y + 40 * c |}.

(** A solver with two regularizers registered. *)
Definition weighted_solver : MapSolver ScaleModel RasterImage string :=
  {| image_model_ := {| downsampling_scale := 2 |};
     print_solver_output_ := false;
     num_channels_ := 3;
     image_size_ := {| width := 100; height := 100 |};
     observations_ := [];
     regularizers_ :=
       [("total variation"%string, 0.25%float);
        ("gradient"%string, 0.5%float)] |}.

(** A single-channel strip of 1073741824 x 3 pixels. *)
Definition strip_image : RasterImage :=
  {| raster_channels := 1;
     raster_size := {| width := 1073741824; height := 3 |};
     raster_pixel := fun x y c => 0 |}.

(** A solver with a weight that is not a number among its entries. *)
Definition nan_weight_solver : MapSolver ScaleModel RasterImage string :=
  {| image_model_ := {| downsampling_scale := 2 |};
     print_solver_output_ := false;
     num_channels_ := 3;
     image_size_ := {| width := 100; height := 100 |};
     observations_ := [];
     regularizers_ :=
       [("total variation"%string, 0.25%float);
        ("unset"%string, nan);
        ("gradient"%string, 0.5%float)] |}.

(* ================================================================= *)
(** * Properties *)

(* ================================================================= *)
(** ** Rounding and order on binary64 *)

Module Binary64Facts.

Import Binary64.

(** Closes a goal on the outcome of a comparison named by a hypothesis
    that has the same comparison in it. *)
Ltac compare_cases H :=
  destruct (SFcompare _ _) as [[ | | ] | ];
  try discriminate H; try reflexivity; auto.

Lemma fexp64_eq e : fexp64 e = Z.max (e - 53) (-1074).
Proof. reflexivity. Qed.

Lemma pow2_pos n : 0 <= n -> 0 < 2 ^ n.
Proof. intros. apply Z.pow_pos_nonneg; lia. Qed.

(** *** Digits and shifts *)

Lemma digits2_pos_bounds p :
  2 ^ (Zpos (digits2_pos p) - 1) <= Zpos p < 2 ^ Zpos (digits2_pos p).
Proof.
  induction p as [p IH | p IH | ]; cbn [digits2_pos].
  - rewrite Pos2Z.inj_succ.
    replace (Z.succ (Zpos (digits2_pos p)) - 1)
      with (Z.succ (Zpos (digits2_pos p) - 1)) by lia.
    rewrite !Z.pow_succ_r by lia. lia.
  - rewrite Pos2Z.inj_succ.
    replace (Z.succ (Zpos (digits2_pos p)) - 1)
      with (Z.succ (Zpos (digits2_pos p) - 1)) by lia.
    rewrite !Z.pow_succ_r by lia. lia.
  - cbn. lia.
Qed.

(** One step of the shift register halves the mantissa. *)
Lemma shr_1_m mrs : 0 <= shr_m mrs -> shr_m (shr_1 mrs) = shr_m mrs / 2.
Proof.
  destruct mrs as [m r s]; cbn [shr_m]; intros Hm.
  destruct m as [ | [p | p | ] | p]; cbn [shr_1 shr_m];
    try lia; try reflexivity.
  - rewrite Pos2Z.inj_xI. apply Z.div_unique with (r := 1); lia.
  - rewrite Pos2Z.inj_xO. apply Z.div_unique with (r := 0); lia.
Qed.

Lemma iter_shr_1_m n : forall mrs,
  0 <= shr_m mrs ->
  shr_m (iter_pos shr_1 n mrs) = shr_m mrs / 2 ^ Zpos n.
Proof.
  assert (Hnn : forall q a, 0 <= a -> 0 <= a / 2 ^ Zpos q).
  { intros q a Ha. apply Z.div_pos; [exact Ha | apply pow2_pos; lia]. }
  induction n as [n IH | n IH | ]; intros mrs Hm; cbn [iter_pos].
  - assert (H1 : 0 <= shr_m (shr_1 mrs)).
    { rewrite shr_1_m by exact Hm. apply Z.div_pos; lia. }
    rewrite IH; rewrite IH; try exact H1.
    + rewrite shr_1_m by exact Hm.
      rewrite !Z.div_div by (try apply pow2_pos; lia).
      f_equal.
      replace (Zpos n~1) with (1 + Zpos n + Zpos n) by lia.
      rewrite (Z.pow_add_r 2 (1 + Zpos n) (Zpos n)) by lia.
      rewrite (Z.pow_add_r 2 1 (Zpos n)) by lia.
      rewrite Z.pow_1_r. lia.
    + apply Hnn, H1.
  - rewrite IH; rewrite IH; try exact Hm.
    + rewrite !Z.div_div by (try apply pow2_pos; lia).
      f_equal.
      replace (Zpos n~0) with (Zpos n + Zpos n) by lia.
      rewrite (Z.pow_add_r 2 (Zpos n) (Zpos n)) by lia. lia.
    + apply Hnn, Hm.
  - rewrite shr_1_m by exact Hm. reflexivity.
Qed.

Lemma shr_record_of_loc_m m l : shr_m (shr_record_of_loc m l) = m.
Proof. destruct l as [ | [ | | ]]; reflexivity. Qed.

(** Truncation to the exponent of the format: the mantissa is divided by
    the power of two that separates the two exponents. *)
Lemma shr_fexp_spec m e l :
  0 <= m ->
  let e' := Z.max e (fexp64 (Zdigits2 m + e)) in
  snd (shr_fexp prec emax m e l) = e' /\
  shr_m (fst (shr_fexp prec emax m e l)) = m / 2 ^ (e' - e).
Proof.
  intros Hm e'. unfold shr_fexp, shr. fold fexp64. subst e'.
  destruct (fexp64 (Zdigits2 m + e) - e) as [ | n | n] eqn:Hn;
    cbn [fst snd].
  - rewrite shr_record_of_loc_m.
    replace (Z.max e (fexp64 (Zdigits2 m + e))) with e by lia.
    rewrite Z.sub_diag, Z.pow_0_r, Z.div_1_r. auto.
  - rewrite iter_shr_1_m by (rewrite shr_record_of_loc_m; exact Hm).
    rewrite shr_record_of_loc_m.
    replace (Z.max e (fexp64 (Zdigits2 m + e))) with (e + Zpos n) by lia.
    split; [reflexivity | f_equal; f_equal; lia].
  - rewrite shr_record_of_loc_m.
    replace (Z.max e (fexp64 (Zdigits2 m + e))) with e by lia.
    rewrite Z.sub_diag, Z.pow_0_r, Z.div_1_r. auto.
Qed.

Lemma shr_fexp_exp_ge m e l : 0 <= m -> e <= snd (shr_fexp prec emax m e l).
Proof.
  intros Hm. destruct (shr_fexp_spec m e l Hm) as [-> _]. lia.
Qed.

(** *** Scaled values of canonical numbers *)

Lemma bounded_canonical m e :
  bounded prec emax m e = true -> canonical m e.
Proof.
  unfold bounded, canonical_mantissa, canonical. fold fexp64.
  intros H. apply andb_true_iff in H. destruct H as [H _].
  apply Z.eqb_eq in H. exact H.
Qed.

Lemma valid_finite_exp_ge s m e :
  valid_binary (S754_finite s m e) = true -> canonical m e /\ -1074 <= e.
Proof.
  cbn [SpecFloat.valid_binary]. intros H. apply bounded_canonical in H.
  split; [exact H | ]. unfold canonical in H. rewrite fexp64_eq in H. lia.
Qed.

Lemma scaled_pos K m e : 0 < m -> 0 <= e + K -> 0 < scaled K m e.
Proof.
  intros Hm He. unfold scaled. pose proof (pow2_pos (e + K) He). nia.
Qed.

Lemma scaled_mono K m m' e :
  0 <= e + K -> m <= m' -> scaled K m e <= scaled K m' e.
Proof.
  intros He Hm. unfold scaled. pose proof (pow2_pos (e + K) He). nia.
Qed.

(** A number lies in the binade its digit count announces. *)
Lemma scaled_upper K m e :
  0 <= e + K ->
  scaled K (Zpos m) e < 2 ^ (Zpos (digits2_pos m) + e + K).
Proof.
  intros He. unfold scaled.
  replace (Zpos (digits2_pos m) + e + K)
    with (Zpos (digits2_pos m) + (e + K)) by lia.
  rewrite (Z.pow_add_r 2 (Zpos (digits2_pos m)) (e + K)) by lia.
  apply Z.mul_lt_mono_pos_r; [apply pow2_pos, He | apply digits2_pos_bounds].
Qed.

Lemma scaled_lower K m e :
  0 <= e + K ->
  2 ^ (Zpos (digits2_pos m) - 1 + e + K) <= scaled K (Zpos m) e.
Proof.
  intros He. unfold scaled.
  replace (Zpos (digits2_pos m) - 1 + e + K)
    with (Zpos (digits2_pos m) - 1 + (e + K)) by lia.
  rewrite (Z.pow_add_r 2 (Zpos (digits2_pos m) - 1) (e + K)) by lia.
  apply Z.mul_le_mono_nonneg_r;
    [apply Z.lt_le_incl, pow2_pos, He | apply digits2_pos_bounds].
Qed.

(** Among canonical numbers the exponent decides the order. *)
Lemma canonical_exp_lt K ma ea mb eb :
  canonical ma ea -> canonical mb eb -> 0 <= ea + K -> ea < eb ->
  scaled K (Zpos ma) ea < scaled K (Zpos mb) eb.
Proof.
  unfold canonical. rewrite !fexp64_eq. intros Ha Hb HK Hlt.
  pose proof (scaled_upper K ma ea HK) as Hu.
  assert (HKb : 0 <= eb + K) by lia.
  pose proof (scaled_lower K mb eb HKb) as Hl.
  assert (Hle : 2 ^ (Zpos (digits2_pos ma) + ea + K)
                <= 2 ^ (Zpos (digits2_pos mb) - 1 + eb + K)).
  { apply Z.pow_le_mono_r; lia. }
  lia.
Qed.

(** [SFcompare] orders canonical positive numbers by their values. *)
Lemma SFcompare_finite_le K m1 e1 m2 e2 :
  canonical m1 e1 -> canonical m2 e2 -> 0 <= e1 + K -> 0 <= e2 + K ->
  (scaled K (Zpos m1) e1 <= scaled K (Zpos m2) e2 <->
   le_result
     (SFcompare (S754_finite false m1 e1) (S754_finite false m2 e2)) = true).
Proof.
  intros H1 H2 HK1 HK2. cbn [SFcompare le_result].
  destruct (Z.compare_spec e1 e2) as [-> | Hlt | Hgt].
  - rewrite Pos.compare_cont_spec. cbn [Pos.switch_Eq].
    unfold scaled. pose proof (pow2_pos (e2 + K) HK2).
    destruct (Pos.compare_spec m1 m2) as [-> | Hm | Hm]; split; intros;
      try reflexivity; try discriminate; nia.
  - pose proof (canonical_exp_lt K m1 e1 m2 e2 H1 H2 HK1 Hlt).
    split; [reflexivity | lia].
  - pose proof (canonical_exp_lt K m2 e2 m1 e1 H2 H1 HK2 Hgt).
    split; [lia | discriminate].
Qed.

(** *** Rounding keeps a lower bound that is in the format *)

(** Truncating a number that is at least a canonical [x] keeps it at
    least [x]: [x] is a multiple of the unit of the target exponent, or
    lies in a lower binade. *)
Lemma shr_fexp_lower K mx ex m e l :
  canonical mx ex -> 0 <= e + K -> 0 <= ex + K ->
  scaled K (Zpos mx) ex <= scaled K (Zpos m) e ->
  scaled K (Zpos mx) ex
    <= scaled K (shr_m (fst (shr_fexp prec emax (Zpos m) e l)))
                (snd (shr_fexp prec emax (Zpos m) e l)).
Proof.
  intros Hx HK HKx Hle.
  destruct (shr_fexp_spec (Zpos m) e l ltac:(lia)) as [He' Hm'].
  rewrite He', Hm'. clear He' Hm'.
  cbn [Zdigits2].
  set (d := Zpos (digits2_pos m)).
  destruct (Z.max_spec e (fexp64 (d + e))) as [[Hlt ->] | [Hge ->]].
  2:{ rewrite Z.sub_diag, Z.pow_0_r, Z.div_1_r. exact Hle. }
  set (e' := fexp64 (d + e)) in *.
  assert (Hk : 0 < 2 ^ (e' - e)) by (apply pow2_pos; lia).
  destruct (Z_le_gt_dec e' ex) as [Hex | Hex].
  - (* [x] is a multiple of the target unit *)
    assert (Hdiv : Zpos mx * 2 ^ (ex - e') <= Zpos m / 2 ^ (e' - e)).
    { apply Z.div_le_lower_bound; [exact Hk | ].
      unfold scaled in Hle.
      replace (ex + K) with ((e' - e) + (ex - e') + (e + K)) in Hle by lia.
      rewrite !Z.pow_add_r in Hle by lia.
      pose proof (pow2_pos (e + K) HK).
      pose proof (pow2_pos (ex - e') ltac:(lia)).
      nia. }
    unfold scaled.
    replace (ex + K) with ((ex - e') + (e' + K)) by lia.
    rewrite Z.pow_add_r by lia.
    pose proof (pow2_pos (e' + K) ltac:(lia)).
    nia.
  - (* the number lies in a higher binade than [x] *)
    unfold canonical in Hx. rewrite fexp64_eq in Hx.
    assert (He' : e' = d + e - 53)
      by (subst e'; rewrite fexp64_eq in *; lia).
    assert (Hdx : Zpos (digits2_pos mx) + ex <= d + e - 1) by lia.
    pose proof (scaled_upper K mx ex HKx) as Hu.
    assert (Hm52 : 2 ^ 52 <= Zpos m / 2 ^ (e' - e)).
    { apply Z.div_le_lower_bound; [exact Hk | ].
      rewrite <- Z.pow_add_r by lia.
      replace (e' - e + 52) with (d - 1) by lia.
      apply (digits2_pos_bounds m). }
    assert (Hl : 2 ^ (d + e - 1 + K)
                 <= scaled K (Zpos m / 2 ^ (e' - e)) e').
    { unfold scaled.
      replace (d + e - 1 + K) with (52 + (e' + K)) by lia.
      rewrite Z.pow_add_r by lia.
      pose proof (pow2_pos (e' + K) ltac:(lia)). nia. }
    assert (Hp : 2 ^ (Zpos (digits2_pos mx) + ex + K)
                 <= 2 ^ (d + e - 1 + K)).
    { apply Z.pow_le_mono_r; lia. }
    lia.
Qed.

Lemma round_nearest_even_ge m l : m <= round_nearest_even m l.
Proof.
  destruct l as [ | [ | | ]]; cbn [round_nearest_even]; try lia.
  destruct (Z.even m); lia.
Qed.

(** Rounding a positive number that is at least a canonical [x] gives
    infinity or a finite number that is at least [x]. *)
Lemma binary_round_aux_lower K mx ex m e :
  canonical mx ex -> 0 <= e + K -> 0 <= ex + K ->
  scaled K (Zpos mx) ex <= scaled K (Zpos m) e ->
  binary_round_aux prec emax false (Zpos m) e loc_Exact
    = S754_infinity false
  \/
  exists m' e',
    binary_round_aux prec emax false (Zpos m) e loc_Exact
      = S754_finite false m' e' /\
    scaled K (Zpos mx) ex <= scaled K (Zpos m') e'.
Proof.
  intros Hx HK HKx Hle.
  pose proof (scaled_pos K (Zpos mx) ex ltac:(lia) HKx) as Hxpos.
  unfold binary_round_aux.
  pose proof (shr_fexp_lower K mx ex m e loc_Exact Hx HK HKx Hle) as H1.
  pose proof (shr_fexp_exp_ge (Zpos m) e loc_Exact ltac:(lia)) as He1.
  destruct (shr_fexp prec emax (Zpos m) e loc_Exact) as [mrs1 e1].
  cbn [fst snd] in H1, He1.
  set (m2 := round_nearest_even (shr_m mrs1) (loc_of_shr_record mrs1)).
  assert (Hm1 : 0 < shr_m mrs1).
  { unfold scaled in H1. pose proof (pow2_pos (e1 + K) ltac:(lia)). nia. }
  assert (Hm2 : shr_m mrs1 <= m2) by apply round_nearest_even_ge.
  assert (H2 : scaled K (Zpos mx) ex <= scaled K m2 e1).
  { etransitivity; [exact H1 | apply scaled_mono; lia]. }
  destruct m2 as [ | p2 | p2] eqn:Ep2; try lia.
  pose proof (shr_fexp_lower K mx ex p2 e1 loc_Exact Hx ltac:(lia) HKx H2)
    as H3.
  pose proof (shr_fexp_exp_ge (Zpos p2) e1 loc_Exact ltac:(lia)) as He2.
  destruct (shr_fexp prec emax (Zpos p2) e1 loc_Exact) as [mrs2 e2].
  cbn [fst snd] in H3, He2.
  assert (Hm3 : 0 < shr_m mrs2).
  { unfold scaled in H3. pose proof (pow2_pos (e2 + K) ltac:(lia)). nia. }
  destruct (shr_m mrs2) as [ | p3 | p3]; try lia.
  destruct (e2 <=? emax - prec); [right | left; reflexivity].
  exists p3, e2. split; [reflexivity | exact H3].
Qed.

(** A number at least one, times a positive [x], is at least [x] before
    rounding. *)
Lemma scaled_mul_ge_one K mx ex my ey :
  0 <= ex + ey + K -> 0 <= ex + K -> 0 <= ey + K -> 52 <= K ->
  scaled K 4503599627370496 (-52) <= scaled K (Zpos my) ey ->
  scaled K (Zpos mx) ex <= scaled K (Zpos (mx * my)) (ex + ey).
Proof.
  intros HK HKx HKy HK52 Hy. unfold scaled in *. rewrite Pos2Z.inj_mul.
  replace (-52 + K) with (K - 52) in Hy by lia.
  assert (Hone : 2 ^ K <= Zpos my * 2 ^ (ey + K)).
  { replace K with (52 + (K - 52)) at 1 by lia.
    rewrite (Z.pow_add_r 2 52 (K - 52)) by lia.
    exact Hy. }
  assert (Hs : 2 ^ (ex + K) * 2 ^ K
               <= Zpos my * 2 ^ (ex + ey + K) * 2 ^ K).
  { replace (Zpos my * 2 ^ (ex + ey + K) * 2 ^ K)
      with (2 ^ (ex + K) * (Zpos my * 2 ^ (ey + K))).
    - apply Z.mul_le_mono_nonneg_l;
        [apply Z.lt_le_incl, pow2_pos; lia | exact Hone].
    - rewrite <- !Z.mul_assoc, (Z.mul_comm (2 ^ (ex + K))), <- !Z.mul_assoc.
      f_equal. rewrite <- !Z.pow_add_r by lia. f_equal. lia. }
  apply Z.mul_le_mono_pos_r in Hs; [ | apply pow2_pos; lia].
  rewrite <- Z.mul_assoc.
  apply Z.mul_le_mono_nonneg_l; [lia | exact Hs].
Qed.

(** The product of a positive number by a number at least one is at
    least that number, on [spec_float]. *)
Lemma SFmul_ge_one_lower x y :
  valid_binary x = true -> valid_binary y = true ->
  valid_binary (SF64mul x y) = true ->
  SFltb (S754_zero false) x = true ->
  SFleb SFone64 y = true ->
  SFleb x (SF64mul x y) = true.
Proof.
  intros Vx Vy Vr Hx Hy.
  destruct x as [sx | [ | ] | | [ | ] mx ex]; try discriminate Hx;
    destruct y as [sy | [ | ] | | [ | ] my ey]; try discriminate Hy;
    try reflexivity.
  destruct (valid_finite_exp_ge _ _ _ Vx) as [Cx Ex].
  destruct (valid_finite_exp_ge _ _ _ Vy) as [Cy Ey].
  set (K := 2148).
  assert (C1 : canonical 4503599627370496 (-52)) by reflexivity.
  unfold SFone64 in Hy.
  assert (Hy' : scaled K 4503599627370496 (-52) <= scaled K (Zpos my) ey).
  { apply (SFcompare_finite_le K _ _ _ _ C1 Cy); [lia | lia | ].
    unfold SFleb in Hy. unfold le_result. compare_cases Hy. }
  assert (Hprod : scaled K (Zpos mx) ex
                  <= scaled K (Zpos (mx * my)) (ex + ey)).
  { apply scaled_mul_ge_one; try assumption; lia. }
  unfold SF64mul in *. cbn [SFmul xorb] in *.
  destruct (binary_round_aux_lower K mx ex (mx * my) (ex + ey) Cx
              ltac:(lia) ltac:(lia) Hprod)
    as [Hr | (m' & e' & Hr & Hle)]; rewrite Hr in *.
  - reflexivity.
  - destruct (valid_finite_exp_ge _ _ _ Vr) as [Cr Er].
    apply (SFcompare_finite_le K _ _ _ _ Cx Cr) in Hle; [ | lia | lia].
    unfold SFleb. unfold le_result in Hle. compare_cases Hle.
Qed.

(** *** Comparisons *)

(** [SFcompare] with its arguments exchanged. *)
Lemma SFcompare_antisym x y :
  SFcompare y x = option_map CompOpp (SFcompare x y).
Proof.
  destruct x as [sx | sx | | sx mx ex], y as [sy | sy | | sy my ey];
    try destruct sx; try destruct sy; try reflexivity;
    cbn [SFcompare option_map]; f_equal;
    rewrite (Z.compare_antisym ex ey);
    destruct (ex ?= ey); cbn [CompOpp]; try reflexivity.
  - rewrite CompOpp_involutive, Pos.compare_cont_antisym. reflexivity.
  - rewrite Pos.compare_cont_antisym. reflexivity.
Qed.

Lemma SFcompare_refl x : SFcompare x x = None \/ SFcompare x x = Some Eq.
Proof.
  destruct x as [sx | sx | | sx mx ex]; try destruct sx;
    cbn [SFcompare]; auto;
    rewrite Z.compare_refl, Pos.compare_cont_refl; auto.
Qed.

(** Only "not a number" is unordered with one. *)
Lemma SFcompare_one_None x : SFcompare x SFone64 = None -> x = S754_nan.
Proof.
  unfold SFone64.
  destruct x as [sx | sx | | sx mx ex]; try destruct sx; cbn [SFcompare];
    intros H; try discriminate H; reflexivity.
Qed.

Lemma SFmul_nan_r x : SF64mul x S754_nan = S754_nan.
Proof. destruct x; reflexivity. Qed.

(** The sign is all that rounding knows of a negative number. *)
Lemma SFopp_binary_round m e :
  SFopp (binary_round prec emax false m e) = binary_round prec emax true m e.
Proof.
  unfold binary_round, binary_round_aux.
  destruct (shl_align _ _ _) as [mz ez].
  destruct (shr_fexp prec emax (Zpos mz) ez loc_Exact) as [mrs1 e1].
  destruct (shr_fexp prec emax _ e1 loc_Exact) as [mrs2 e2].
  destruct (shr_m mrs2); try reflexivity.
  destruct (e2 <=? emax - prec); reflexivity.
Qed.

(** *** The same facts on the primitive floats *)

Lemma Prim2SF_zero : Prim2SF 0%float = S754_zero false.
Proof. vm_compute. reflexivity. Qed.

Lemma Prim2SF_one : Prim2SF 1%float = SFone64.
Proof. vm_compute. reflexivity. Qed.

Lemma to_Z_of_Z_small n :
  0 <= n < 2 ^ 63 -> Uint63.to_Z (Uint63.of_Z n) = n.
Proof.
  intros H. rewrite Uint63.of_Z_spec. apply Z.mod_small. exact H.
Qed.

(** [double_of_int n] is the integer [n] rounded to binary64. *)
Lemma double_of_int_spec n :
  - 2 ^ 63 < n < 2 ^ 63 ->
  Prim2SF (double_of_int n) = binary_normalize prec emax n 0 false.
Proof.
  intros Hn. unfold double_of_int.
  destruct (Z.ltb_spec n 0) as [Hneg | Hpos].
  - rewrite FloatAxioms.opp_spec, FloatAxioms.of_uint63_spec.
    rewrite (to_Z_of_Z_small (- n)) by lia.
    destruct n as [ | p | p]; try lia.
    cbn [Z.opp binary_normalize]. apply SFopp_binary_round.
  - rewrite FloatAxioms.of_uint63_spec.
    rewrite (to_Z_of_Z_small n) by lia. reflexivity.
Qed.

Lemma ltb_irrefl (x : float) : (x <? x)%float = false.
Proof.
  rewrite FloatAxioms.ltb_spec. unfold SFltb.
  destruct (SFcompare_refl (Prim2SF x)) as [-> | ->]; reflexivity.
Qed.

Lemma leb_ltb_false (x y : float) :
  (x <=? y)%float = true -> (y <? x)%float = false.
Proof.
  rewrite FloatAxioms.leb_spec, FloatAxioms.ltb_spec. unfold SFleb, SFltb.
  rewrite (SFcompare_antisym (Prim2SF x) (Prim2SF y)).
  intros H. cbn [option_map]. compare_cases H.
Qed.

Lemma leb_refl_pos (t : float) :
  (0 <? t)%float = true -> (t <=? t)%float = true.
Proof.
  rewrite FloatAxioms.ltb_spec, FloatAxioms.leb_spec, Prim2SF_zero.
  unfold SFltb, SFleb. intros Ht.
  destruct (SFcompare_refl (Prim2SF t)) as [E | E]; rewrite E;
    [ | reflexivity].
  destruct (Prim2SF t) as [sx | sx | | sx mx ex]; try destruct sx;
    cbn [SFcompare] in Ht, E; try discriminate Ht; discriminate E.
Qed.

(** The test [y < 1.0] failing means [1.0 <= y], or [y] is not a number. *)
Lemma ltb_one_false (y : float) :
  (y <? 1)%float = false ->
  (1 <=? y)%float = true \/ Prim2SF y = S754_nan.
Proof.
  rewrite FloatAxioms.ltb_spec, FloatAxioms.leb_spec, Prim2SF_one.
  unfold SFltb, SFleb.
  rewrite (SFcompare_antisym (Prim2SF y) SFone64).
  destruct (SFcompare (Prim2SF y) SFone64) as [[ | | ] | ] eqn:E;
    cbn; intros H; try discriminate H; auto.
  right. apply SFcompare_one_None, E.
Qed.

(** Multiplying a positive double by a double that is at least one does
    not make it smaller. *)
Lemma mul_ge_one (t y : float) :
  (0 <? t)%float = true -> (1 <=? y)%float = true ->
  (t <=? t * y)%float = true.
Proof.
  rewrite FloatAxioms.ltb_spec, !FloatAxioms.leb_spec.
  rewrite Prim2SF_zero, Prim2SF_one.
  intros Ht Hy. rewrite FloatAxioms.mul_spec.
  apply SFmul_ge_one_lower; try apply Prim2SF_valid; try assumption.
  rewrite <- FloatAxioms.mul_spec. apply Prim2SF_valid.
Qed.

(** The same when the factor is only known to fail the test [y < 1.0]. *)
Lemma mul_not_smaller (t y : float) :
  (0 <? t)%float = true -> (y <? 1)%float = false ->
  (t * y <? t)%float = false.
Proof.
  intros Ht Hy. destruct (ltb_one_false y Hy) as [H1 | Hnan].
  - apply leb_ltb_false, mul_ge_one; assumption.
  - rewrite FloatAxioms.ltb_spec, FloatAxioms.mul_spec, Hnan, SFmul_nan_r.
    reflexivity.
Qed.

End Binary64Facts.

(* ================================================================= *)
(** ** Adaptive threshold scaling *)

Section ThresholdScaling.

Import Binary64Facts.

Variable o : MapSolverOptions.
Variable num_parameters : Z.
Variable regularization_parameter_sum : double.

Local Abbreviation threshold_scale :=
  (double_of_int num_parameters * regularization_parameter_sum)%float.

(** The call returns, with the options untouched or with the three
    thresholds multiplied. *)
Lemma AdjustThresholdsAdaptively_result :
  AdjustThresholdsAdaptively num_parameters regularization_parameter_sum o =
  Ok (tt,
      if (threshold_scale <? 1)%float then o
      else
        {| least_squares_solver := least_squares_solver o;
           use_numerical_differentiation := use_numerical_differentiation o;
           numerical_differentiation_step := numerical_differentiation_step o;
           split_channels := split_channels o;
           gradient_norm_threshold :=
             (gradient_norm_threshold o * threshold_scale)%float;
           cost_decrease_threshold :=
             (cost_decrease_threshold o * threshold_scale)%float;
           parameter_variation_threshold :=
             (parameter_variation_threshold o * threshold_scale)%float;
           verbose := verbose o |}).
Proof.
  unfold AdjustThresholdsAdaptively. cbv zeta.
  destruct (threshold_scale <? 1)%float; reflexivity.
Qed.

(** C2. When [num_parameters * regularization_parameter_sum] is at least
    [1.0], each of the three thresholds becomes its former value times
    that product: the double product of the code, with the scale formed
    first. *)
Theorem AdjustThresholdsAdaptively_scales :
  0 <= num_parameters ->
  (0 <=? regularization_parameter_sum)%float = true ->
  (1 <=? double_of_int num_parameters * regularization_parameter_sum)%float
    = true ->
  exists o',
    AdjustThresholdsAdaptively num_parameters regularization_parameter_sum o
      = Ok (tt, o') /\
    gradient_norm_threshold o' =
      (gradient_norm_threshold o
       * (double_of_int num_parameters * regularization_parameter_sum))%float /\
    cost_decrease_threshold o' =
      (cost_decrease_threshold o
       * (double_of_int num_parameters * regularization_parameter_sum))%float /\
    parameter_variation_threshold o' =
      (parameter_variation_threshold o
       * (double_of_int num_parameters * regularization_parameter_sum))%float.
Proof.
  intros _ _ Hscale.
  eexists. split; [apply AdjustThresholdsAdaptively_result | ].
  rewrite (leb_ltb_false _ _ Hscale). cbn. repeat split.
Qed.

(** C3. When [num_parameters * regularization_parameter_sum] is below
    [1.0], the three thresholds keep their values. *)
Theorem AdjustThresholdsAdaptively_below_one :
  0 <= num_parameters ->
  (0 <=? regularization_parameter_sum)%float = true ->
  (double_of_int num_parameters * regularization_parameter_sum <? 1)%float
    = true ->
  exists o',
    AdjustThresholdsAdaptively num_parameters regularization_parameter_sum o
      = Ok (tt, o') /\
    gradient_norm_threshold o' = gradient_norm_threshold o /\
    cost_decrease_threshold o' = cost_decrease_threshold o /\
    parameter_variation_threshold o' = parameter_variation_threshold o.
Proof.
  intros _ _ Hscale.
  eexists. split; [apply AdjustThresholdsAdaptively_result | ].
  rewrite Hscale. repeat split.
Qed.

(** Below [1.0] the whole object is left as it was. *)
Lemma AdjustThresholdsAdaptively_returns_same :
  (double_of_int num_parameters * regularization_parameter_sum <? 1)%float
    = true ->
  AdjustThresholdsAdaptively num_parameters regularization_parameter_sum o
    = Ok (tt, o).
Proof.
  intros Hscale.
  rewrite AdjustThresholdsAdaptively_result, Hscale. reflexivity.
Qed.

(** With positive thresholds, no threshold compares below its former
    value after the call, whatever the scale. *)
Lemma AdjustThresholdsAdaptively_never_reduces :
  (0 <? gradient_norm_threshold o)%float = true ->
  (0 <? cost_decrease_threshold o)%float = true ->
  (0 <? parameter_variation_threshold o)%float = true ->
  0 <= num_parameters ->
  (0 <=? regularization_parameter_sum)%float = true ->
  exists o',
    AdjustThresholdsAdaptively num_parameters regularization_parameter_sum o
      = Ok (tt, o') /\
    (gradient_norm_threshold o' <? gradient_norm_threshold o)%float = false /\
    (cost_decrease_threshold o' <? cost_decrease_threshold o)%float = false /\
    (parameter_variation_threshold o' <? parameter_variation_threshold o)%float
      = false.
Proof.
  intros Hg Hc Hp _ _.
  eexists. split; [apply AdjustThresholdsAdaptively_result | ].
  destruct (threshold_scale <? 1)%float eqn:Hscale.
  - repeat split; apply ltb_irrefl.
  - cbn. repeat split; apply mul_not_smaller; assumption.
Qed.

(** Unless the scale is not a number, "not smaller" is "at least": the
    thresholds are kept or grown. *)
Lemma AdjustThresholdsAdaptively_grows :
  (0 <? gradient_norm_threshold o)%float = true ->
  (0 <? cost_decrease_threshold o)%float = true ->
  (0 <? parameter_variation_threshold o)%float = true ->
  (threshold_scale <? 1)%float = true \/ (1 <=? threshold_scale)%float = true ->
  exists o',
    AdjustThresholdsAdaptively num_parameters regularization_parameter_sum o
      = Ok (tt, o') /\
    (gradient_norm_threshold o <=? gradient_norm_threshold o')%float = true /\
    (cost_decrease_threshold o <=? cost_decrease_threshold o')%float = true /\
    (parameter_variation_threshold o <=? parameter_variation_threshold o')%float
      = true.
Proof.
  intros Hg Hc Hp Hscale.
  eexists. split; [apply AdjustThresholdsAdaptively_result | ].
  destruct Hscale as [Hlt | Hge].
  - rewrite Hlt. repeat split; apply leb_refl_pos; assumption.
  - rewrite (leb_ltb_false _ _ Hge). cbn.
    repeat split; apply mul_ge_one; assumption.
Qed.

(** C9. The call returns normally and leaves every field other than the
    three thresholds as it was. *)
Theorem AdjustThresholdsAdaptively_frame :
  exists o',
    AdjustThresholdsAdaptively num_parameters regularization_parameter_sum o
      = Ok (tt, o') /\
    least_squares_solver o' = least_squares_solver o /\
    use_numerical_differentiation o' = use_numerical_differentiation o /\
    numerical_differentiation_step o' = numerical_differentiation_step o /\
    split_channels o' = split_channels o /\
    verbose o' = verbose o.
Proof.
  eexists. split; [apply AdjustThresholdsAdaptively_result | ].
  destruct (threshold_scale <? 1)%float; repeat split.
Qed.

End ThresholdScaling.

(* ================================================================= *)
(** ** Machine integers: representable values *)

Lemma Int32_wrap_in_range (z : Z) : Int32.in_range z -> Int32.wrap z = z.
Proof.
  unfold Int32.in_range, Int32.wrap, Int32.min, Int32.max, Int32.modulus.
  intros H. rewrite Z.mod_small; lia.
Qed.

Lemma Int32_wrap_bounds (z : Z) : Int32.in_range (Int32.wrap z).
Proof.
  unfold Int32.in_range, Int32.wrap, Int32.min, Int32.max, Int32.modulus.
  pose proof (Z.mod_pos_bound (z - -2147483648) (2 ^ 32) ltac:(lia)). lia.
Qed.

Lemma Int32_mul_in_range (a b : Z) :
  Int32.in_range (a * b) -> Int32.mul a b = a * b.
Proof. apply Int32_wrap_in_range. Qed.

Lemma Int32_of_size_in_range (n : nat) :
  Z.of_nat n <= Int32.max -> Int32.of_size n = Z.of_nat n.
Proof.
  intros H. apply Int32_wrap_in_range.
  unfold Int32.in_range, Int32.min, Int32.max in *. lia.
Qed.

(* ================================================================= *)
(** ** Construction *)

Section Construction.

Context {ImageModel ImageData Regularizer : Type}.
Context {model_ops : ImageModelOps ImageModel}.
Context {buffer_ops : PixelBufferOps ImageData}.

Local Abbreviation Solver := (MapSolver ImageModel ImageData Regularizer).

(** The channel loop passes exactly when every image it visits has the
    expected channel count, and fails with its own message otherwise. *)
Lemma check_channel_counts_cases (images : list ImageData) (num_channels : Z) :
  (check_channel_counts images num_channels = Ok tt /\
   Forall (fun image => ImageData_GetNumChannels image = num_channels) images)
  \/
  (check_channel_counts images num_channels
     = Fatal "Image channel counts do not match up." /\
   Exists (fun image => ImageData_GetNumChannels image <> num_channels) images).
Proof.
  induction images as [ | image images IH]; cbn [check_channel_counts].
  - left. split; [reflexivity | constructor].
  - unfold CHECK_EQ.
    destruct (Z.eqb_spec (ImageData_GetNumChannels image) num_channels)
      as [E | E]; cbn [bind Monad_result].
    + destruct IH as [[-> HF] | [-> HE]].
      * left. split; [reflexivity | constructor; assumption].
      * right. split; [reflexivity | apply Exists_cons_tl; assumption].
    + right. split; [reflexivity | apply Exists_cons_hd; assumption].
Qed.

(** The observation loop is a map over the inputs, in input order. *)
Lemma resize_observations_map (low_res_images : list ImageData) (size : Size) :
  resize_observations low_res_images size =
  map (fun image => ImageData_ResizeImage image size INTERPOLATE_NEAREST)
      low_res_images.
Proof.
  unfold resize_observations.
  enough (H : forall acc,
    fold_left
      (fun observations low_res_image =>
         observations ++
         [ImageData_ResizeImage low_res_image size INTERPOLATE_NEAREST])
      low_res_images acc
    = acc ++
      map (fun image => ImageData_ResizeImage image size INTERPOLATE_NEAREST)
          low_res_images) by apply (H []).
  induction low_res_images as [ | image images IH]; intros acc;
    cbn [fold_left map].
  - rewrite app_nil_r. reflexivity.
  - rewrite IH, <- app_assoc. reflexivity.
Qed.

(** What the constructor does on a non-empty list whose length an [int]
    holds: the channel loop decides. *)
Lemma MapSolver_new_cons (image_model : ImageModel) (first_image : ImageData)
  (rest : list ImageData) (print_solver_output : bool) :
  Z.of_nat (List.length (first_image :: rest)) <= Int32.max ->
  MapSolver_new (Regularizer := Regularizer)
    image_model (first_image :: rest) print_solver_output =
  match check_channel_counts rest (ImageData_GetNumChannels first_image) with
  | Fatal msg => Fatal msg
  | Ok _ =>
      let image_size :=
        {| width := Int32.mul (width (ImageData_GetImageSize first_image))
                      (ImageModel_GetDownsamplingScale image_model);
           height := Int32.mul (height (ImageData_GetImageSize first_image))
                       (ImageModel_GetDownsamplingScale image_model) |} in
      Ok {| image_model_ := image_model;
            print_solver_output_ := print_solver_output;
            num_channels_ := ImageData_GetNumChannels first_image;
            image_size_ := image_size;
            observations_ :=
              resize_observations (first_image :: rest) image_size;
            regularizers_ := [] |}
  end.
Proof.
  intros Hlen. unfold MapSolver_new.
  rewrite (Int32_of_size_in_range _ Hlen).
  unfold CHECK_GT.
  destruct (Z.ltb_spec 0 (Z.of_nat (List.length (first_image :: rest))))
    as [_ | H]; [ | cbn [List.length] in H; lia].
  cbn [bind Monad_result vector_at nth_error skipn].
  destruct (check_channel_counts rest (ImageData_GetNumChannels first_image));
    reflexivity.
Qed.

(** C5. Construction from no image at all stops at the first check. *)
Theorem MapSolver_new_no_images (image_model : ImageModel)
  (print_solver_output : bool) :
  MapSolver_new (Regularizer := Regularizer) image_model [] print_solver_output
  = Fatal "Cannot super-resolve with 0 low-res images.".
Proof.
  unfold MapSolver_new.
  rewrite Int32_of_size_in_range by (unfold Int32.max; cbn; lia).
  reflexivity.
Qed.

(** C6. On a non-empty list, construction fails exactly when some image
    has a channel count other than that of the first image, and it then
    fails with the message of the channel check. *)
Theorem MapSolver_new_fatal_iff_channel_mismatch (image_model : ImageModel)
  (first_image : ImageData) (rest : list ImageData)
  (print_solver_output : bool) :
  Z.of_nat (List.length (first_image :: rest)) <= Int32.max ->
  (is_fatal (MapSolver_new (Regularizer := Regularizer)
               image_model (first_image :: rest) print_solver_output)
     = true
   <->
   Exists (fun image =>
             ImageData_GetNumChannels image
             <> ImageData_GetNumChannels first_image)
          (first_image :: rest))
  /\
  (is_fatal (MapSolver_new (Regularizer := Regularizer)
               image_model (first_image :: rest) print_solver_output)
     = true ->
   MapSolver_new (Regularizer := Regularizer)
     image_model (first_image :: rest) print_solver_output
   = Fatal "Image channel counts do not match up.").
Proof.
  intros Hlen. rewrite (MapSolver_new_cons _ _ _ _ Hlen).
  destruct (check_channel_counts_cases rest
              (ImageData_GetNumChannels first_image))
    as [[-> HF] | [-> HE]]; cbn [is_fatal]; split.
  - split; [discriminate | ].
    intros HE. exfalso. apply Exists_cons in HE. destruct HE as [H | HE].
    + apply H. reflexivity.
    + apply Exists_exists in HE. destruct HE as (image & Hin & Hne).
      rewrite Forall_forall in HF. apply Hne, HF, Hin.
  - discriminate.
  - split; [intros _; apply Exists_cons_tl, HE | reflexivity].
  - reflexivity.
Qed.

(** The high-resolution size in every case: the products are those of
    the code, on [int]. *)
Lemma MapSolver_new_image_size (image_model : ImageModel)
  (low_res_images : list ImageData) (print_solver_output : bool)
  (solver : Solver) :
  MapSolver_new (Regularizer := Regularizer)
    image_model low_res_images print_solver_output = Ok solver ->
  exists first_image rest,
    low_res_images = first_image :: rest /\
    image_size_ solver =
      {| width := Int32.mul (width (ImageData_GetImageSize first_image))
                    (ImageModel_GetDownsamplingScale image_model);
         height := Int32.mul (height (ImageData_GetImageSize first_image))
                     (ImageModel_GetDownsamplingScale image_model) |}.
Proof.
  unfold MapSolver_new.
  destruct (CHECK_GT _ _ _); cbn [bind Monad_result]; [ | discriminate].
  destruct low_res_images as [ | first_image rest];
    cbn [vector_at nth_error bind Monad_result skipn]; [discriminate | ].
  destruct (check_channel_counts rest _); cbn [bind Monad_result ret];
    [ | discriminate].
  intros E. injection E as <-. exists first_image, rest. split; reflexivity.
Qed.

(** C4. From a non-empty list of images that share a channel count [c]
    and a size [(w, h)], with scale factor [s >= 1], construction succeeds;
    the high-resolution size is [(w * s, h * s)], the channel count is
    [c], and the observations are the inputs, in order, each resized to
    the high-resolution size with nearest-neighbour interpolation. The
    list length and the two products are values an [int] holds. *)
Theorem MapSolver_new_consistent_images (image_model : ImageModel)
  (low_res_images : list ImageData) (print_solver_output : bool)
  (c w h s : Z) :
  low_res_images <> [] ->
  Z.of_nat (List.length low_res_images) <= Int32.max ->
  Forall (fun image =>
            ImageData_GetNumChannels image = c /\
            ImageData_GetImageSize image = {| width := w; height := h |})
         low_res_images ->
  ImageModel_GetDownsamplingScale image_model = s ->
  1 <= s ->
  Int32.in_range (w * s) ->
  Int32.in_range (h * s) ->
  exists solver : Solver,
    MapSolver_new (Regularizer := Regularizer)
      image_model low_res_images print_solver_output = Ok solver /\
    image_size_ solver = {| width := w * s; height := h * s |} /\
    num_channels_ solver = c /\
    List.length (observations_ solver) = List.length low_res_images /\
    observations_ solver =
      map (fun image =>
             ImageData_ResizeImage image {| width := w * s; height := h * s |}
               INTERPOLATE_NEAREST)
          low_res_images.
Proof.
  intros Hne Hlen Hall Hs _ Hw Hh.
  destruct low_res_images as [ | first_image rest]; [contradiction | ].
  rewrite (MapSolver_new_cons _ _ _ _ Hlen).
  inversion Hall as [ | ? ? [Hc Hsz] Hrest]; subst.
  destruct (check_channel_counts_cases rest
              (ImageData_GetNumChannels first_image))
    as [[-> _] | [_ HE]].
  - rewrite Hsz. cbn [width height].
    rewrite (Int32_mul_in_range _ _ Hw), (Int32_mul_in_range _ _ Hh).
    eexists. split; [reflexivity | ].
    cbn [image_size_ num_channels_ observations_].
    rewrite resize_observations_map.
    repeat split. apply length_map.
  - exfalso. apply Exists_exists in HE. destruct HE as (image & Hin & Hneq).
    rewrite Forall_forall in Hrest. apply Hneq. apply (Hrest image Hin).
Qed.

End Construction.

(* ================================================================= *)
(** ** Registration of regularizers and the queries *)

Section Queries.

Context {ImageModel ImageData Regularizer : Type}.

Local Abbreviation Solver := (MapSolver ImageModel ImageData Regularizer).

(** *** The number of data points *)

(** The check of [GetNumDataPoints] compares an [int] product with the
    largest [int]: it passes in every state. *)
Lemma GetNumDataPoints_returns (s : Solver) :
  GetNumDataPoints s =
  Ok (Int32.mul
        (Int32.mul (width (image_size_ s)) (height (image_size_ s)))
        (num_channels_ s),
      s).
Proof.
  unfold GetNumDataPoints, GetNumPixels, GetNumChannels, gets, lift, CHECK_LE,
    long_of_int.
  cbn [bind ret Monad_Method].
  pose proof (Int32_wrap_bounds
                (Int32.mul (width (image_size_ s)) (height (image_size_ s))
                 * num_channels_ s)) as [_ Hmax].
  fold (Int32.mul
          (Int32.mul (width (image_size_ s)) (height (image_size_ s)))
          (num_channels_ s)) in Hmax.
  apply Z.leb_le in Hmax. rewrite Hmax. reflexivity.
Qed.

(** When the pixel count and the number of data points are values an
    [int] holds, the call returns their exact product. *)
Lemma GetNumDataPoints_representable (s : Solver) :
  Int32.in_range (width (image_size_ s) * height (image_size_ s)) ->
  Int32.in_range
    (width (image_size_ s) * height (image_size_ s) * num_channels_ s) ->
  GetNumDataPoints s =
  Ok (width (image_size_ s) * height (image_size_ s) * num_channels_ s, s).
Proof.
  intros Hp Hd. rewrite GetNumDataPoints_returns.
  rewrite (Int32_mul_in_range _ _ Hp), (Int32_mul_in_range _ _ Hd).
  reflexivity.
Qed.

(** *** The sum of the regularization parameters *)

Lemma partial_weight_sum_app (weights weights' : list double) (k : nat) :
  (k <= List.length weights)%nat ->
  partial_weight_sum (weights ++ weights') k = partial_weight_sum weights k.
Proof.
  induction k as [ | k IH]; intros Hk; cbn [partial_weight_sum].
  - reflexivity.
  - rewrite IH by lia. rewrite app_nth1 by lia. reflexivity.
Qed.

Lemma sum_of_weights_snoc (weights : list double) (w : double) :
  sum_of_weights (weights ++ [w]) = (sum_of_weights weights + w)%float.
Proof.
  unfold sum_of_weights. rewrite length_app. cbn [List.length].
  rewrite Nat.add_1_r. cbn [partial_weight_sum].
  rewrite partial_weight_sum_app by lia.
  rewrite app_nth2 by lia. rewrite Nat.sub_diag. reflexivity.
Qed.

(** The accumulation loop computes the sum of the weights. *)
Lemma fold_left_sum_of_weights (regularizers : list (Regularizer * double)) :
  fold_left
    (fun regularization_parameter_sum regularizer_and_parameter =>
       (regularization_parameter_sum + snd regularizer_and_parameter)%float)
    regularizers 0%float
  = sum_of_weights (map snd regularizers).
Proof.
  induction regularizers as [ | [term w] regularizers IH] using rev_ind.
  - reflexivity.
  - rewrite fold_left_app, map_app. cbn [map snd fold_left].
    rewrite sum_of_weights_snoc, <- IH. reflexivity.
Qed.

(** C7. [GetRegularizationParameterSum] returns the sum of the weights of
    the registered entries and leaves the solver as it was; with no entry
    registered it returns [0.0]. *)
Theorem GetRegularizationParameterSum_sum (s : Solver) :
  GetRegularizationParameterSum s
    = Ok (sum_of_weights (map snd (regularizers_ s)), s)
  /\
  GetRegularizationParameterSum (set_regularizers [] s)
    = Ok (0%float, set_regularizers [] s).
Proof.
  split.
  - unfold GetRegularizationParameterSum, gets. cbn [bind ret Monad_Method].
    rewrite fold_left_sum_of_weights. reflexivity.
  - reflexivity.
Qed.

(** C10. [AddRegularizer] returns normally for every weight and keeps
    the entries already registered. Before the call
    [GetRegularizationParameterSum] returns the sum [S] of the registered
    weights; after it, it returns [S + w]. *)
Theorem AddRegularizer_adds_weight (s : Solver) (term : Regularizer)
  (w : double) :
  exists s' : Solver,
    AddRegularizer term w s = Ok (tt, s') /\
    regularizers_ s' = regularizers_ s ++ [(term, w)] /\
    GetRegularizationParameterSum s
      = Ok (sum_of_weights (map snd (regularizers_ s)), s) /\
    GetRegularizationParameterSum s'
      = Ok ((sum_of_weights (map snd (regularizers_ s)) + w)%float, s').
Proof.
  eexists. split; [reflexivity | ]. split; [reflexivity | ].
  unfold GetRegularizationParameterSum, gets, set_regularizers.
  cbn [bind ret Monad_Method regularizers_].
  split.
  - rewrite fold_left_sum_of_weights. reflexivity.
  - rewrite fold_left_app. cbn [fold_left snd].
    rewrite fold_left_sum_of_weights. reflexivity.
Qed.

End Queries.

(* ================================================================= *)
(** ** The theorems at concrete inputs *)

(** C1. Construction from one 32768 x 32768 single-channel image with
    scale factor 2 gives a solver of high-resolution size 65536 x 65536:
    4294967296 data points, more than the largest [int].
    [GetNumDataPoints] does not fail on it: the product, formed on [int]s,
    is 0, the check passes and 0 is returned. *)
Theorem GetNumDataPoints_overflow_unchecked :
  exists solver : MapSolver ScaleModel RasterImage string,
    MapSolver_new {| downsampling_scale := 2 |} [large_image] false
      = Ok solver /\
    image_size_ solver = {| width := 65536; height := 65536 |} /\
    num_channels_ solver = 1 /\
    Int32.max
      < width (image_size_ solver) * height (image_size_ solver)
        * num_channels_ solver /\
    GetNumDataPoints solver = Ok (0, solver).
Proof.
  eexists. split; [reflexivity | ].
  split; [reflexivity | ]. split; [reflexivity | ].
  split; [reflexivity | ].
  rewrite GetNumDataPoints_returns. reflexivity.
Qed.

(** The overflow of the second product alone is not detected either:
    30000 x 30000 pixels are a value an [int] holds, three channels of
    them are not. *)
Lemma GetNumDataPoints_channel_overflow_unchecked :
  let s : MapSolver ScaleModel RasterImage string :=
    {| image_model_ := {| downsampling_scale := 2 |};
       print_solver_output_ := false;
       num_channels_ := 3;
       image_size_ := {| width := 30000; height := 30000 |};
       observations_ := [];
       regularizers_ := [] |} in
  Int32.in_range (30000 * 30000) /\
  Int32.max < 30000 * 30000 * 3 /\
  GetNumDataPoints s = Ok (-1594967296, s).
Proof.
  cbv zeta. split; [unfold Int32.in_range, Int32.min, Int32.max; lia | ].
  split; [reflexivity | ].
  rewrite GetNumDataPoints_returns. reflexivity.
Qed.

(** A 100 x 100 solver with three channels has 30000 data points. *)
Example GetNumDataPoints_small :
  GetNumDataPoints small_solver = Ok (30000, small_solver).
Proof. rewrite GetNumDataPoints_returns. reflexivity. Qed.

Lemma AdjustThresholdsAdaptively_scales_witness :
  exists o',
    AdjustThresholdsAdaptively 30000 0.5%float example_options = Ok (tt, o') /\
    gradient_norm_threshold o' =
      (gradient_norm_threshold example_options
       * (double_of_int 30000 * 0.5))%float /\
    cost_decrease_threshold o' =
      (cost_decrease_threshold example_options
       * (double_of_int 30000 * 0.5))%float /\
    parameter_variation_threshold o' =
      (parameter_variation_threshold example_options
       * (double_of_int 30000 * 0.5))%float.
Proof.
  apply (AdjustThresholdsAdaptively_scales example_options 30000 0.5%float);
    [lia | vm_compute; reflexivity | vm_compute; reflexivity].
Defined.

Lemma AdjustThresholdsAdaptively_below_one_witness :
  exists o',
    AdjustThresholdsAdaptively 10 0x1p-10%float example_options = Ok (tt, o') /\
    gradient_norm_threshold o' = gradient_norm_threshold example_options /\
    cost_decrease_threshold o' = cost_decrease_threshold example_options /\
    parameter_variation_threshold o' =
      parameter_variation_threshold example_options.
Proof.
  apply (AdjustThresholdsAdaptively_below_one example_options 10 0x1p-10%float);
    [lia | vm_compute; reflexivity | vm_compute; reflexivity].
Defined.

(** The one scale that is not a number, for a count [n >= 0] and a sum
    [s >= 0]: no parameter and an infinite sum. The thresholds are then
    not numbers either: not smaller than before, and not comparable. *)
Example AdjustThresholdsAdaptively_nan_scale :
  (0 <=? infinity)%float = true /\
  exists o',
    AdjustThresholdsAdaptively 0 infinity example_options = Ok (tt, o') /\
    gradient_norm_threshold o' = nan /\
    (gradient_norm_threshold o'
       <? gradient_norm_threshold example_options)%float = false /\
    (gradient_norm_threshold example_options
       <=? gradient_norm_threshold o')%float = false.
Proof.
  split; [vm_compute; reflexivity | ].
  eexists. repeat split; vm_compute; reflexivity.
Qed.

(** With the scale [30000 * 0.5], a threshold of [2 ^ -20] becomes
    [15000 * 2 ^ -20]. *)
Example AdjustThresholdsAdaptively_example :
  exists o',
    AdjustThresholdsAdaptively 30000 0.5%float example_options = Ok (tt, o') /\
    gradient_norm_threshold o' = 0x1.d4cp-7%float.
Proof. eexists. split; vm_compute; reflexivity. Qed.

Lemma MapSolver_new_consistent_images_witness :
  exists solver : MapSolver ScaleModel RasterImage string,
    MapSolver_new {| downsampling_scale := 2 |}
      [example_image 0; example_image 100] false = Ok solver /\
    image_size_ solver = {| width := 4 * 2; height := 3 * 2 |} /\
    num_channels_ solver = 3 /\
    List.length (observations_ solver)
      = List.length [example_image 0; example_image 100] /\
    observations_ solver =
      map (fun image =>
             ImageData_ResizeImage image {| width := 4 * 2; height := 3 * 2 |}
               INTERPOLATE_NEAREST)
          [example_image 0; example_image 100].
Proof.
  apply (MapSolver_new_consistent_images (Regularizer := string)
           {| downsampling_scale := 2 |}
           [example_image 0; example_image 100] false 3 4 3 2).
  - discriminate.
  - vm_compute. discriminate.
  - repeat constructor.
  - reflexivity.
  - lia.
  - vm_compute. split; discriminate.
  - vm_compute. split; discriminate.
Defined.

Lemma MapSolver_new_fatal_iff_channel_mismatch_witness :
  (is_fatal (MapSolver_new (Regularizer := string) {| downsampling_scale := 2 |}
               (example_image 0 :: [gray_image]) false) = true
   <->
   Exists (fun image =>
             ImageData_GetNumChannels image
             <> ImageData_GetNumChannels (example_image 0))
          (example_image 0 :: [gray_image]))
  /\
  (is_fatal (MapSolver_new (Regularizer := string) {| downsampling_scale := 2 |}
               (example_image 0 :: [gray_image]) false) = true ->
   MapSolver_new (Regularizer := string) {| downsampling_scale := 2 |}
     (example_image 0 :: [gray_image]) false
   = Fatal "Image channel counts do not match up.").
Proof.
  apply (MapSolver_new_fatal_iff_channel_mismatch (Regularizer := string)
           {| downsampling_scale := 2 |} (example_image 0) [gray_image] false).
  vm_compute. discriminate.
Defined.

(** Registering the weights 0.1, 0.2 and 0.7 gives the sum 1.0; a
    negative weight is accepted and lowers the sum. *)
Example GetRegularizationParameterSum_three_weights :
  exists s1 s2 s3 s4 : MapSolver ScaleModel RasterImage string,
    AddRegularizer "total variation"%string 0x1.999999999999ap-4%float
      small_solver = Ok (tt, s1) /\
    AddRegularizer "bilateral total variation"%string
      0x1.999999999999ap-3%float s1 = Ok (tt, s2) /\
    AddRegularizer "gradient"%string 0x1.6666666666666p-1%float s2
      = Ok (tt, s3) /\
    GetRegularizationParameterSum s3 = Ok (1%float, s3) /\
    AddRegularizer "negative"%string (-0.25)%float s3 = Ok (tt, s4) /\
    GetRegularizationParameterSum s4 = Ok (0.75%float, s4).
Proof.
  do 4 eexists. repeat split; vm_compute; reflexivity.
Qed.

(* ================================================================= *)
(** * Further properties *)

(* ================================================================= *)
(** ** Exact rounding, signs and sums on binary64 *)

Module Binary64MoreFacts.

Import Binary64 Binary64Facts Binary64Class.

(** Rounding a canonical number leaves it as it is. *)
Lemma binary_round_aux_canonical sx m e :
  canonical m e -> e <= 971 ->
  binary_round_aux prec emax sx (Zpos m) e loc_Exact = S754_finite sx m e.
Proof.
  intros Hc He. unfold canonical, fexp64 in Hc.
  assert (Hs : shr_fexp prec emax (Zpos m) e loc_Exact
               = ({| shr_m := Zpos m; shr_r := false; shr_s := false |}, e)).
  { unfold shr_fexp. cbn [Zdigits2]. rewrite Hc, Z.sub_diag. reflexivity. }
  unfold binary_round_aux. rewrite Hs.
  cbn [shr_m loc_of_shr_record round_nearest_even]. rewrite Hs. cbn [shr_m].
  replace (e <=? emax - prec) with true; [reflexivity | ].
  symmetry. apply Z.leb_le. unfold emax, prec. lia.
Qed.

Lemma iter_xO_digits m d :
  Zpos (digits2_pos (Pos.iter xO m d)) = Zpos (digits2_pos m) + Zpos d.
Proof.
  induction d as [ | d IH] using Pos.peano_ind.
  - cbn [Pos.iter digits2_pos]. lia.
  - rewrite Pos.iter_succ. cbn [digits2_pos]. lia.
Qed.

Lemma iter_xO_value m d :
  Zpos (Pos.iter xO m d) = Zpos m * 2 ^ Zpos d.
Proof.
  induction d as [ | d IH] using Pos.peano_ind.
  - cbn [Pos.iter]. rewrite Z.pow_1_r. lia.
  - rewrite Pos.iter_succ, Pos2Z.inj_succ, Z.pow_succ_r by lia.
    rewrite Pos2Z.inj_xO, IH. lia.
Qed.

(** A number whose digits fit the precision is rounded to itself: the
    mantissa is shifted left to the exponent of the format. *)
Lemma binary_round_exact sx m e :
  fexp64 (Zpos (digits2_pos m) + e) <= e ->
  fexp64 (Zpos (digits2_pos m) + e) <= 971 ->
  exists mz,
    binary_round prec emax sx m e
      = S754_finite sx mz (fexp64 (Zpos (digits2_pos m) + e)) /\
    Zpos mz = Zpos m * 2 ^ (e - fexp64 (Zpos (digits2_pos m) + e)).
Proof.
  intros Hle Hmax. unfold binary_round, shl_align. fold fexp64.
  set (ez := fexp64 (Zpos (digits2_pos m) + e)) in *.
  destruct (ez - e) as [ | d | d] eqn:Hd; try lia.
  - assert (ez = e) by lia. exists m. split.
    + replace e with ez at 2 by lia. replace ez with e at 1 by lia.
      rewrite binary_round_aux_canonical; [ congruence | | lia].
      unfold canonical. fold ez. lia.
    + replace (e - ez) with 0 by lia. rewrite Z.pow_0_r. lia.
  - exists (Pos.iter xO m d). split.
    + apply binary_round_aux_canonical; [ | lia].
      unfold canonical. rewrite iter_xO_digits.
      replace (Zpos (digits2_pos m) + Zpos d + ez)
        with (Zpos (digits2_pos m) + e) by lia.
      reflexivity.
    + rewrite iter_xO_value. f_equal. f_equal. lia.
Qed.

Lemma digits_le_prec m : Zpos m < 2 ^ 53 -> Zpos (digits2_pos m) <= 53.
Proof.
  intros Hm. pose proof (digits2_pos_bounds m) as [Hl _].
  assert (H : 2 ^ (Zpos (digits2_pos m) - 1) < 2 ^ 53) by lia.
  apply Z.pow_lt_mono_r_iff in H; lia.
Qed.

(** An integer of at most 53 bits is converted without rounding. *)
Lemma double_of_int_exact n :
  n <> 0 -> Z.abs n < 2 ^ 53 ->
  exists m e,
    Prim2SF (double_of_int n) = S754_finite (n <? 0) m e /\
    -52 <= e <= 0 /\
    Zpos m = Z.abs n * 2 ^ (- e).
Proof.
  intros Hn0 Hn.
  rewrite double_of_int_spec by lia.
  assert (Hcase : forall sx p, Zpos p < 2 ^ 53 ->
    exists m e,
      binary_round prec emax sx p 0 = S754_finite sx m e /\
      -52 <= e <= 0 /\ Zpos m = Zpos p * 2 ^ (- e)).
  { intros sx p Hp. pose proof (digits_le_prec p Hp) as Hd.
    pose proof (Pos2Z.is_pos (digits2_pos p)) as Hd0.
    assert (He : fexp64 (Zpos (digits2_pos p) + 0) = Zpos (digits2_pos p) - 53)
      by (rewrite fexp64_eq; lia).
    destruct (binary_round_exact sx p 0) as (mz & Hr & Hv); try lia.
    rewrite He in Hr, Hv.
    exists mz, (Zpos (digits2_pos p) - 53).
    split. { exact Hr. }
    split. { lia. }
    rewrite Hv, Z.sub_0_l. reflexivity. }
  destruct n as [ | p | p]; [contradiction | | ].
  - cbn [binary_normalize Z.abs]. apply (Hcase false p). exact Hn.
  - cbn [binary_normalize Z.abs]. apply (Hcase true p). exact Hn.
Qed.

Lemma double_of_int_zero : Prim2SF (double_of_int 0) = S754_zero false.
Proof. vm_compute. reflexivity. Qed.

Lemma double_of_int_class n :
  Z.abs n < 2 ^ 53 ->
  finite_or_zero (Prim2SF (double_of_int n)) /\
  has_sign (n <? 0) (Prim2SF (double_of_int n)).
Proof.
  intros Hn. destruct (Z.eq_dec n 0) as [-> | Hn0].
  - rewrite double_of_int_zero. split; reflexivity.
  - destruct (double_of_int_exact n Hn0 Hn) as (m & e & -> & _).
    split; reflexivity.
Qed.

(** Rounding keeps the sign it is given and yields a number. *)
Lemma binary_round_aux_sign sx m e l :
  has_sign sx (binary_round_aux prec emax sx (Zpos m) e l).
Proof.
  unfold binary_round_aux.
  pose proof (shr_fexp_spec (Zpos m) e l ltac:(lia)) as [_ H1].
  destruct (shr_fexp prec emax (Zpos m) e l) as [mrs1 e1]. cbn [fst] in H1.
  assert (Hm1 : 0 <= shr_m mrs1).
  { rewrite H1. apply Z.div_pos; [lia | apply pow2_pos; lia]. }
  pose proof (round_nearest_even_ge (shr_m mrs1) (loc_of_shr_record mrs1))
    as H2.
  set (m2 := round_nearest_even (shr_m mrs1) (loc_of_shr_record mrs1)) in *.
  pose proof (shr_fexp_spec m2 e1 loc_Exact ltac:(lia)) as [_ H3].
  destruct (shr_fexp prec emax m2 e1 loc_Exact) as [mrs2 e2]. cbn [fst] in H3.
  assert (Hm3 : 0 <= shr_m mrs2).
  { rewrite H3. apply Z.div_pos; [lia | apply pow2_pos; lia]. }
  destruct (shr_m mrs2) as [ | p | p]; try lia; try reflexivity.
  destruct (e2 <=? emax - prec); reflexivity.
Qed.

Lemma binary_round_sign sx m e : has_sign sx (binary_round prec emax sx m e).
Proof.
  unfold binary_round. destruct (shl_align _ _ _) as [mz ez].
  apply binary_round_aux_sign.
Qed.

(** A product that is not zero times infinity is a number, with the
    product of the signs. *)
Lemma SFmul_sign sx sy x y :
  has_sign sx x -> has_sign sy y ->
  (finite_or_zero x /\ finite_or_zero y) \/
  (exists m e, x = S754_finite sx m e) \/
  (exists m e, y = S754_finite sy m e) ->
  has_sign (xorb sx sy) (SF64mul x y).
Proof.
  intros Hx Hy H.
  destruct x as [s1 | s1 | | s1 m1 e1], y as [s2 | s2 | | s2 m2 e2];
    cbn [has_sign] in Hx, Hy; try contradiction; subst;
    unfold SF64mul; cbn [SFmul has_sign]; try reflexivity;
    try apply binary_round_aux_sign;
    destruct H as [[H1 H2] | [(m & e & H) | (m & e & H)]];
    cbn [finite_or_zero] in *; try contradiction; discriminate H.
Qed.

Lemma has_sign_true_lt_one x : has_sign true x -> SFltb x SFone64 = true.
Proof.
  destruct x as [s | s | | s m e]; cbn [has_sign]; intros H;
    try contradiction; subst; reflexivity.
Qed.

Lemma has_sign_false_nonneg x : has_sign false x -> SFnonneg x.
Proof.
  destruct x as [s | s | | s m e]; cbn [has_sign]; intros H;
    try contradiction; subst; reflexivity.
Qed.

(** The sum of two non-negative numbers is non-negative. *)
Lemma SFadd_nonneg x y : SFnonneg x -> SFnonneg y -> SFnonneg (SF64add x y).
Proof.
  unfold SFnonneg.
  destruct x as [s1 | [ | ] | | [ | ] m1 e1]; intros Hx; try discriminate Hx;
    destruct y as [s2 | [ | ] | | [ | ] m2 e2]; intros Hy; try discriminate Hy;
    unfold SF64add; cbn [SFadd]; try reflexivity.
  - destruct s1, s2; reflexivity.
  - cbn [cond_Zopp Z.add binary_normalize].
    apply has_sign_false_nonneg, binary_round_sign.
Qed.

(** *** On the primitive floats *)

Lemma Prim2SF_infinity : Prim2SF infinity = S754_infinity false.
Proof. vm_compute. reflexivity. Qed.

Lemma not_nan_dichotomy (y : float) :
  Prim2SF y <> S754_nan ->
  (y <? 1)%float = true \/ (1 <=? y)%float = true.
Proof.
  intros Hy. destruct (y <? 1)%float eqn:E; [left; reflexivity | right].
  destruct (ltb_one_false y E) as [H | H]; [exact H | contradiction].
Qed.

Lemma has_sign_not_nan sx x : has_sign sx x -> x <> S754_nan.
Proof. intros H E. rewrite E in H. exact H. Qed.

Lemma ltb_leb_trans_zero (t u : float) :
  (0 <? t)%float = true -> (t <=? u)%float = true -> (0 <? u)%float = true.
Proof.
  rewrite !FloatAxioms.ltb_spec, FloatAxioms.leb_spec, Prim2SF_zero.
  destruct (Prim2SF t) as [s1 | [ | ] | | [ | ] m1 e1]; intros Ht;
    try discriminate Ht;
    destruct (Prim2SF u) as [s2 | [ | ] | | [ | ] m2 e2]; intros Hu;
    try discriminate Hu; reflexivity.
Qed.

(** A non-negative finite double is a zero or a positive finite number. *)
Lemma nonneg_finite_class (s : float) :
  (0 <=? s)%float = true -> (s <? infinity)%float = true ->
  finite_or_zero (Prim2SF s) /\
  ((exists z, Prim2SF s = S754_zero z) \/ has_sign false (Prim2SF s)).
Proof.
  rewrite FloatAxioms.leb_spec, FloatAxioms.ltb_spec.
  rewrite Prim2SF_zero, Prim2SF_infinity.
  destruct (Prim2SF s) as [z | [ | ] | | [ | ] m e]; intros H0 Hinf;
    try discriminate H0; try discriminate Hinf;
    (split; [exact I | ]); [left; eauto | right; reflexivity].
Qed.

Lemma SFmul_zero_r x z :
  finite_or_zero x -> exists z', SF64mul x (S754_zero z) = S754_zero z'.
Proof.
  destruct x as [s | s | | s m e]; cbn [finite_or_zero]; intros H;
    try contradiction; unfold SF64mul; cbn [SFmul]; eauto.
Qed.

(** The scale of a non-negative count and a non-negative finite sum is a
    number. *)
Lemma scale_is_number (n : Z) (s : float) :
  0 <= n < 2 ^ 53 ->
  (0 <=? s)%float = true -> (s <? infinity)%float = true ->
  Prim2SF (double_of_int n * s) <> S754_nan.
Proof.
  intros Hn H0 Hinf. rewrite FloatAxioms.mul_spec.
  destruct (double_of_int_class n ltac:(lia)) as [Hf Hs].
  replace (n <? 0) with false in Hs by (symmetry; apply Z.ltb_ge; lia).
  destruct (nonneg_finite_class s H0 Hinf) as [Hfs [[z Hz] | Hss]].
  - rewrite Hz. destruct (SFmul_zero_r _ z Hf) as [z' ->]. discriminate.
  - apply (has_sign_not_nan (xorb false false)).
    apply SFmul_sign; auto.
Qed.

Lemma nonneg_has_some_sign x : SFnonneg x -> exists sx, has_sign sx x.
Proof.
  unfold SFnonneg.
  destruct x as [s | s | | s m e]; intros H; try discriminate H;
    exists s; reflexivity.
Qed.

(** With at least one parameter the scale is a number for every sum that
    is at least zero, plus infinity included. *)
Lemma scale_is_number_pos (n : Z) (s : float) :
  1 <= n < 2 ^ 53 -> (0 <=? s)%float = true ->
  Prim2SF (double_of_int n * s) <> S754_nan.
Proof.
  intros Hn H0. rewrite FloatAxioms.mul_spec.
  rewrite FloatAxioms.leb_spec, Prim2SF_zero in H0.
  destruct (nonneg_has_some_sign _ H0) as [sy Hy].
  destruct (double_of_int_exact n ltac:(lia) ltac:(lia)) as (m & e & Hd & _).
  apply (has_sign_not_nan (xorb (n <? 0) sy)).
  apply SFmul_sign; [rewrite Hd; reflexivity | exact Hy | ].
  right. left. eauto.
Qed.

Lemma add_nonneg (x y : float) :
  (0 <=? x)%float = true -> (0 <=? y)%float = true ->
  (0 <=? x + y)%float = true.
Proof.
  rewrite !FloatAxioms.leb_spec, Prim2SF_zero, FloatAxioms.add_spec.
  apply SFadd_nonneg.
Qed.

Lemma negative_class (s : float) :
  (s <? 0)%float = true -> has_sign true (Prim2SF s) .
Proof.
  rewrite FloatAxioms.ltb_spec, Prim2SF_zero.
  destruct (Prim2SF s) as [z | [ | ] | | [ | ] m e]; intros H;
    try discriminate H; reflexivity.
Qed.

Lemma scale_negative (n : Z) (s : float) :
  1 <= n < 2 ^ 53 -> (s <? 0)%float = true ->
  (double_of_int n * s <? 1)%float = true.
Proof.
  intros Hn Hs. rewrite FloatAxioms.ltb_spec, Prim2SF_one, FloatAxioms.mul_spec.
  apply has_sign_true_lt_one.
  destruct (double_of_int_exact n ltac:(lia) ltac:(lia)) as (m & e & Hd & _).
  replace (n <? 0) with false in Hd by (symmetry; apply Z.ltb_ge; lia).
  change true with (xorb false true).
  apply SFmul_sign.
  - rewrite Hd. reflexivity.
  - apply negative_class, Hs.
  - right. left. eauto.
Qed.

Lemma scale_zero_sum (n : Z) (s : float) :
  Z.abs n < 2 ^ 53 -> (s =? 0)%float = true ->
  (double_of_int n * s <? 1)%float = true.
Proof.
  intros Hn Hs. rewrite FloatAxioms.ltb_spec, Prim2SF_one, FloatAxioms.mul_spec.
  rewrite FloatAxioms.eqb_spec, Prim2SF_zero in Hs.
  destruct (double_of_int_class n Hn) as [Hf _].
  destruct (Prim2SF s) as [z | [ | ] | | [ | ] m e]; try discriminate Hs.
  destruct (SFmul_zero_r _ z Hf) as [z' ->]. reflexivity.
Qed.

(** *** Not a number *)

Lemma Prim2SF_nan : Prim2SF nan = S754_nan.
Proof. vm_compute. reflexivity. Qed.

Lemma is_nan_spec (x : float) : is_nan x = true -> x = nan.
Proof.
  unfold is_nan. rewrite FloatAxioms.eqb_spec. unfold SFeqb. intros H.
  apply Prim2SF_inj. rewrite Prim2SF_nan.
  destruct (Prim2SF x) as [s | s | | s m e]; try reflexivity;
    try destruct s; cbn [SFcompare] in H;
    try rewrite Z.compare_refl, Pos.compare_cont_refl in H;
    discriminate H.
Qed.

Lemma mul_nan_r (x : float) : (x * nan)%float = nan.
Proof.
  apply Prim2SF_inj.
  rewrite FloatAxioms.mul_spec, Prim2SF_nan. apply SFmul_nan_r.
Qed.

Lemma add_nan_l (y : float) : (nan + y)%float = nan.
Proof.
  apply Prim2SF_inj. rewrite FloatAxioms.add_spec, Prim2SF_nan. reflexivity.
Qed.

Lemma add_nan_r (x : float) : (x + nan)%float = nan.
Proof.
  apply Prim2SF_inj. rewrite FloatAxioms.add_spec, Prim2SF_nan.
  destruct (Prim2SF x); reflexivity.
Qed.

Lemma nan_ltb_one : (nan <? 1)%float = false.
Proof. vm_compute. reflexivity. Qed.

End Binary64MoreFacts.

(* ================================================================= *)
(** ** What a constructed solver holds *)

Section ConstructionShape.

Import Binary64Facts Binary64MoreFacts.

Context {ImageModel ImageData Regularizer : Type}.
Context {model_ops : ImageModelOps ImageModel}.
Context {buffer_ops : PixelBufferOps ImageData}.

Local Abbreviation Solver := (MapSolver ImageModel ImageData Regularizer).

(** A successful construction, read backwards. *)
Lemma MapSolver_new_Ok_inv (image_model : ImageModel)
  (low_res_images : list ImageData) (print_solver_output : bool)
  (solver : Solver) :
  MapSolver_new image_model low_res_images print_solver_output = Ok solver ->
  exists first_image rest,
    low_res_images = first_image :: rest /\
    Forall (fun image =>
              ImageData_GetNumChannels image
              = ImageData_GetNumChannels first_image) rest /\
    solver =
      let image_size :=
        {| width := Int32.mul (width (ImageData_GetImageSize first_image))
                      (ImageModel_GetDownsamplingScale image_model);
           height := Int32.mul (height (ImageData_GetImageSize first_image))
                       (ImageModel_GetDownsamplingScale image_model) |} in
      {| image_model_ := image_model;
         print_solver_output_ := print_solver_output;
         num_channels_ := ImageData_GetNumChannels first_image;
         image_size_ := image_size;
         observations_ :=
           map (fun image =>
                  ImageData_ResizeImage image image_size INTERPOLATE_NEAREST)
               low_res_images;
         regularizers_ := [] |}.
Proof.
  unfold MapSolver_new.
  destruct (CHECK_GT _ _ _); cbn [bind Monad_result]; [ | discriminate].
  destruct low_res_images as [ | first_image rest];
    cbn [vector_at nth_error bind Monad_result skipn]; [discriminate | ].
  destruct (check_channel_counts_cases rest
              (ImageData_GetNumChannels first_image))
    as [[-> HF] | [-> _]]; cbn [bind Monad_result ret]; [ | discriminate].
  intros E. injection E as <-. exists first_image, rest.
  rewrite resize_observations_map. repeat split. exact HF.
Qed.

(** X1. When construction succeeds the list of images was not empty,
    every image in it has the channel count the solver records, no
    regularizer is registered yet, and the model and the print flag are
    the ones given. *)
Theorem MapSolver_new_channels_agree (image_model : ImageModel)
  (low_res_images : list ImageData) (print_solver_output : bool)
  (solver : Solver) :
  MapSolver_new image_model low_res_images print_solver_output = Ok solver ->
  low_res_images <> [] /\
  Forall (fun image => ImageData_GetNumChannels image = num_channels_ solver)
         low_res_images /\
  regularizers_ solver = [] /\
  image_model_ solver = image_model /\
  print_solver_output_ solver = print_solver_output.
Proof.
  intros H. apply MapSolver_new_Ok_inv in H.
  destruct H as (first_image & rest & -> & HF & ->). cbv zeta.
  cbn [num_channels_ regularizers_ image_model_ print_solver_output_].
  split; [discriminate | ]. split; [ | repeat split].
  constructor; [reflexivity | exact HF].
Qed.

(** X2. The high-resolution size comes from the first image alone (its
    width and height times the scale factor, as [int] products): the sizes
    of the other images are not looked at, and every input, whatever its
    own size, is resized to that size, in input order. *)
Theorem MapSolver_new_size_from_first (image_model : ImageModel)
  (first_image : ImageData) (rest : list ImageData)
  (print_solver_output : bool) (solver : Solver) :
  MapSolver_new image_model (first_image :: rest) print_solver_output
    = Ok solver ->
  image_size_ solver =
    {| width := Int32.mul (width (ImageData_GetImageSize first_image))
                  (ImageModel_GetDownsamplingScale image_model);
       height := Int32.mul (height (ImageData_GetImageSize first_image))
                   (ImageModel_GetDownsamplingScale image_model) |} /\
  observations_ solver =
    map (fun image =>
           ImageData_ResizeImage image (image_size_ solver)
             INTERPOLATE_NEAREST)
        (first_image :: rest).
Proof.
  intros H. apply MapSolver_new_Ok_inv in H.
  destruct H as (first' & rest' & E & _ & ->). injection E as <- <-.
  split; reflexivity.
Qed.

(** X3. With a resize operation that gives the requested size and keeps
    the channels, every observation of a constructed solver has the
    high-resolution size and the channel count of the solver. *)
Theorem MapSolver_new_observations_uniform
  {laws : PixelBufferLaws ImageData} (image_model : ImageModel)
  (low_res_images : list ImageData) (print_solver_output : bool)
  (solver : Solver) :
  MapSolver_new image_model low_res_images print_solver_output = Ok solver ->
  Forall (fun observation =>
            ImageData_GetImageSize observation = image_size_ solver /\
            ImageData_GetNumChannels observation = num_channels_ solver)
         (observations_ solver).
Proof.
  intros H. apply MapSolver_new_Ok_inv in H.
  destruct H as (first_image & rest & -> & HF & ->). cbv zeta.
  cbn [observations_ image_size_ num_channels_].
  apply Forall_map.
  assert (Hall : Forall (fun image =>
                           ImageData_GetNumChannels image
                           = ImageData_GetNumChannels first_image)
                        (first_image :: rest))
    by (constructor; [reflexivity | exact HF]).
  revert Hall. apply Forall_impl. intros image Hc.
  rewrite ResizeImage_size, ResizeImage_channels.
  split; [reflexivity | exact Hc].
Qed.

(** X4. Right after construction the sum of the regularization
    parameters is [0.0], and adapting the thresholds with that sum and any
    [int] number of parameters leaves the options as they were. *)
Theorem MapSolver_new_no_adaptation (image_model : ImageModel)
  (low_res_images : list ImageData) (print_solver_output : bool)
  (solver : Solver) (o : MapSolverOptions) (num_parameters : Z) :
  MapSolver_new image_model low_res_images print_solver_output = Ok solver ->
  Int32.in_range num_parameters ->
  exists sum,
    GetRegularizationParameterSum solver = Ok (sum, solver) /\
    sum = 0%float /\
    AdjustThresholdsAdaptively num_parameters sum o = Ok (tt, o).
Proof.
  intros H Hn. apply MapSolver_new_Ok_inv in H.
  destruct H as (first_image & rest & _ & _ & ->). cbv zeta.
  exists 0%float. split; [reflexivity | ]. split; [reflexivity | ].
  apply AdjustThresholdsAdaptively_returns_same.
  apply scale_zero_sum; [ | vm_compute; reflexivity].
  unfold Int32.in_range, Int32.min, Int32.max in Hn. lia.
Qed.

(** X8. Construction followed by [GetNumDataPoints]: for images of
    [c] channels whose first has size [(w, h)], and scale factor [s], the
    number of data points is [(w * s) * (h * s) * c], when the sizes, the
    pixel count and that number are values an [int] holds. *)
Theorem MapSolver_new_data_points (image_model : ImageModel)
  (first_image : ImageData) (rest : list ImageData)
  (print_solver_output : bool) (c w h s : Z) :
  Z.of_nat (List.length (first_image :: rest)) <= Int32.max ->
  Forall (fun image => ImageData_GetNumChannels image = c)
         (first_image :: rest) ->
  ImageData_GetImageSize first_image = {| width := w; height := h |} ->
  ImageModel_GetDownsamplingScale image_model = s ->
  1 <= s ->
  Int32.in_range (w * s) ->
  Int32.in_range (h * s) ->
  Int32.in_range (w * s * (h * s)) ->
  Int32.in_range (w * s * (h * s) * c) ->
  exists solver : Solver,
    MapSolver_new image_model (first_image :: rest) print_solver_output
      = Ok solver /\
    GetNumDataPoints solver = Ok (w * s * (h * s) * c, solver).
Proof.
  intros Hlen Hall Hsz Hs _ Hw Hh Hp Hd.
  rewrite (MapSolver_new_cons _ _ _ _ Hlen).
  inversion Hall as [ | ? ? Hc Hrest]; subst.
  destruct (check_channel_counts_cases rest
              (ImageData_GetNumChannels first_image))
    as [[-> _] | [_ HE]].
  - rewrite Hsz. cbn [width height]. cbv zeta.
    rewrite (Int32_mul_in_range _ _ Hw), (Int32_mul_in_range _ _ Hh).
    eexists. split; [reflexivity | ].
    apply GetNumDataPoints_representable; assumption.
  - exfalso. apply Exists_exists in HE. destruct HE as (image & Hin & Hneq).
    rewrite Forall_forall in Hrest. apply Hneq. apply (Hrest image Hin).
Qed.

End ConstructionShape.

Section Registration.

Import Binary64Facts Binary64MoreFacts.

Context {ImageModel ImageData Regularizer : Type}.

Local Abbreviation Solver := (MapSolver ImageModel ImageData Regularizer).

(** X5. [AddRegularizer] changes nothing but the list of regularizers:
    model, print flag, channel count, size and observations stay, and
    [GetNumDataPoints] returns the same number before and after. *)
Theorem AddRegularizer_frame (s : Solver) (term : Regularizer) (w : double) :
  exists s' : Solver,
    AddRegularizer term w s = Ok (tt, s') /\
    image_model_ s' = image_model_ s /\
    print_solver_output_ s' = print_solver_output_ s /\
    num_channels_ s' = num_channels_ s /\
    image_size_ s' = image_size_ s /\
    observations_ s' = observations_ s /\
    exists n, GetNumDataPoints s = Ok (n, s) /\
              GetNumDataPoints s' = Ok (n, s').
Proof.
  eexists. split; [reflexivity | ]. repeat split.
  eexists. rewrite !GetNumDataPoints_returns. split; reflexivity.
Qed.

Lemma call_all_AddRegularizer (entries : list (Regularizer * double)) :
  forall s : Solver,
    call_all
      (map (fun entry => AddRegularizer (fst entry) (snd entry)) entries) s
    = Ok (tt, set_regularizers (regularizers_ s ++ entries) s).
Proof.
  induction entries as [ | [term w] entries IH]; intros s; cbn [map call_all].
  - rewrite app_nil_r. destruct s; reflexivity.
  - cbn [bind Monad_Method fst snd]. unfold AddRegularizer at 1, modify.
    rewrite IH. unfold set_regularizers. cbn.
    rewrite <- app_assoc. reflexivity.
Qed.

(** X6. Registrations made one after the other append their entries in
    call order after those already there, and the sum of the
    regularization parameters is then the sum of all the weights in that
    order. *)
Theorem AddRegularizer_in_sequence (s : Solver)
  (entries : list (Regularizer * double)) :
  exists s' : Solver,
    call_all
      (map (fun entry => AddRegularizer (fst entry) (snd entry)) entries) s
      = Ok (tt, s') /\
    regularizers_ s' = regularizers_ s ++ entries /\
    GetRegularizationParameterSum s'
      = Ok (sum_of_weights (map snd (regularizers_ s ++ entries)), s').
Proof.
  eexists. split; [apply call_all_AddRegularizer | ].
  split; [reflexivity | ].
  unfold GetRegularizationParameterSum, gets. cbn [bind ret Monad_Method].
  rewrite fold_left_sum_of_weights. reflexivity.
Qed.

Lemma fold_left_add_nonneg (regularizers : list (Regularizer * double)) :
  forall acc : double,
    (0 <=? acc)%float = true ->
    Forall (fun entry => (0 <=? snd entry)%float = true) regularizers ->
    (0 <=? fold_left (fun sum entry => (sum + snd entry)%float)
             regularizers acc)%float = true.
Proof.
  induction regularizers as [ | entry regularizers IH]; intros acc Hacc Hall;
    cbn [fold_left].
  - exact Hacc.
  - inversion Hall as [ | ? ? Hw Hrest]; subst.
    apply IH; [apply add_nonneg; assumption | exact Hrest].
Qed.

(** X9. When every registered weight is at least zero, so is the sum
    [GetRegularizationParameterSum] returns (it is then a number). *)
Theorem GetRegularizationParameterSum_nonneg (s : Solver) :
  Forall (fun entry => (0 <=? snd entry)%float = true) (regularizers_ s) ->
  exists sum,
    GetRegularizationParameterSum s = Ok (sum, s) /\
    (0 <=? sum)%float = true.
Proof.
  intros Hall. eexists. split; [reflexivity | ].
  apply fold_left_add_nonneg; [vm_compute; reflexivity | exact Hall].
Qed.

Lemma fold_left_add_nan (regularizers : list (Regularizer * double)) :
  forall acc : double,
    acc = nan \/ Exists (fun entry => is_nan (snd entry) = true) regularizers ->
    fold_left (fun sum entry => (sum + snd entry)%float) regularizers acc = nan.
Proof.
  induction regularizers as [ | entry regularizers IH]; intros acc H;
    cbn [fold_left].
  - destruct H as [H | H]; [exact H | inversion H].
  - apply IH. destruct H as [-> | H].
    + left. apply add_nan_l.
    + inversion H as [? ? Hnan | ? ? Hrest]; subst.
      * left. rewrite (is_nan_spec _ Hnan). apply add_nan_r.
      * right. exact Hrest.
Qed.

(** X13. No weight is validated: once a weight that is not a number is
    registered, [GetRegularizationParameterSum] returns "not a number",
    whatever the other weights. *)
Theorem GetRegularizationParameterSum_nan (s : Solver) :
  Exists (fun entry => is_nan (snd entry) = true) (regularizers_ s) ->
  GetRegularizationParameterSum s = Ok (nan, s).
Proof.
  intros H. unfold GetRegularizationParameterSum, gets.
  cbn [bind ret Monad_Method].
  rewrite fold_left_add_nan; [reflexivity | right; exact H].
Qed.

End Registration.

Section ThresholdsOnNumbers.

Import Binary64Facts Binary64MoreFacts.

Variable o : MapSolverOptions.
Variable num_parameters : Z.
Variable regularization_parameter_sum : double.

(** X7. For a number of parameters between 0 and the largest [int] and
    a finite weight sum that is at least zero, positive thresholds are
    kept or grown: each is at least its former value, and still
    positive. *)
Theorem AdjustThresholdsAdaptively_finite_sum :
  0 <= num_parameters <= Int32.max ->
  (0 <=? regularization_parameter_sum)%float = true ->
  (regularization_parameter_sum <? infinity)%float = true ->
  (0 <? gradient_norm_threshold o)%float = true ->
  (0 <? cost_decrease_threshold o)%float = true ->
  (0 <? parameter_variation_threshold o)%float = true ->
  exists o',
    AdjustThresholdsAdaptively num_parameters regularization_parameter_sum o
      = Ok (tt, o') /\
    (gradient_norm_threshold o <=? gradient_norm_threshold o')%float = true /\
    (cost_decrease_threshold o <=? cost_decrease_threshold o')%float = true /\
    (parameter_variation_threshold o
       <=? parameter_variation_threshold o')%float = true /\
    (0 <? gradient_norm_threshold o')%float = true /\
    (0 <? cost_decrease_threshold o')%float = true /\
    (0 <? parameter_variation_threshold o')%float = true.
Proof.
  intros Hn H0 Hinf Hg Hc Hp.
  assert (Hnum : Prim2SF (double_of_int num_parameters
                          * regularization_parameter_sum) <> S754_nan).
  { apply scale_is_number; try assumption. unfold Int32.max in Hn. lia. }
  eexists. split; [apply AdjustThresholdsAdaptively_result | ].
  destruct (not_nan_dichotomy _ Hnum) as [Hlt | Hge].
  - rewrite Hlt. repeat split; try assumption; apply leb_refl_pos; assumption.
  - rewrite (leb_ltb_false _ _ Hge). cbn.
    repeat split;
      try (apply mul_ge_one; assumption);
      (eapply ltb_leb_trans_zero; [ | apply mul_ge_one; [ | exact Hge]];
       assumption).
Qed.

(** X10. With at least one parameter and a negative weight sum the
    scale is below [1.0]: the options are left as they were. *)
Theorem AdjustThresholdsAdaptively_negative_sum :
  1 <= num_parameters <= Int32.max ->
  (regularization_parameter_sum <? 0)%float = true ->
  AdjustThresholdsAdaptively num_parameters regularization_parameter_sum o
    = Ok (tt, o).
Proof.
  intros Hn Hs. apply AdjustThresholdsAdaptively_returns_same.
  apply scale_negative; [unfold Int32.max in Hn; lia | exact Hs].
Qed.

(** X12. A weight sum that is not a number fails the test
    [threshold_scale < 1.0], so the thresholds are multiplied: all three
    become "not a number". *)
Theorem AdjustThresholdsAdaptively_nan_sum :
  is_nan regularization_parameter_sum = true ->
  exists o',
    AdjustThresholdsAdaptively num_parameters regularization_parameter_sum o
      = Ok (tt, o') /\
    gradient_norm_threshold o' = nan /\
    cost_decrease_threshold o' = nan /\
    parameter_variation_threshold o' = nan.
Proof.
  intros Hnan. rewrite (is_nan_spec _ Hnan).
  eexists. split; [apply AdjustThresholdsAdaptively_result | ].
  rewrite mul_nan_r, nan_ltb_one. cbn. repeat split; apply mul_nan_r.
Qed.

(** C8. With positive thresholds, a number of parameters from 0 to the
    largest [int] and a weight sum that is at least zero, each threshold
    after the call is at least its value before: kept or grown. The one
    case left out is no parameter with an infinite sum, where the scale
    is not a number. *)
Theorem AdjustThresholdsAdaptively_kept_or_grown :
  (0 <? gradient_norm_threshold o)%float = true ->
  (0 <? cost_decrease_threshold o)%float = true ->
  (0 <? parameter_variation_threshold o)%float = true ->
  0 <= num_parameters <= Int32.max ->
  (0 <=? regularization_parameter_sum)%float = true ->
  (num_parameters = 0 ->
   (regularization_parameter_sum <? infinity)%float = true) ->
  exists o',
    AdjustThresholdsAdaptively num_parameters regularization_parameter_sum o
      = Ok (tt, o') /\
    (gradient_norm_threshold o <=? gradient_norm_threshold o')%float = true /\
    (cost_decrease_threshold o <=? cost_decrease_threshold o')%float = true /\
    (parameter_variation_threshold o
       <=? parameter_variation_threshold o')%float = true.
Proof.
  intros Hg Hc Hp Hn H0 Hinf.
  assert (Hnum : Prim2SF (double_of_int num_parameters
                          * regularization_parameter_sum) <> S754_nan).
  { unfold Int32.max in Hn.
    destruct (Z.eq_dec num_parameters 0) as [E | E].
    - apply scale_is_number; [lia | exact H0 | exact (Hinf E)].
    - apply scale_is_number_pos; [lia | exact H0]. }
  eexists. split; [apply AdjustThresholdsAdaptively_result | ].
  destruct (not_nan_dichotomy _ Hnum) as [Hlt | Hge].
  - rewrite Hlt. repeat split; apply leb_refl_pos; assumption.
  - rewrite (leb_ltb_false _ _ Hge). cbn.
    repeat split; apply mul_ge_one; assumption.
Qed.

End ThresholdsOnNumbers.

(** X11. The conversion of the [int] number of parameters to [double]
    is exact: for an [int] [n] other than 0 the double is finite, has the
    sign of [n], and its mantissa [m] and exponent [e] give
    [m * 2 ^ e = |n|]. *)
Theorem double_of_int_exact_on_int (n : Z) :
  Int32.in_range n -> n <> 0 ->
  exists m e,
    Prim2SF (double_of_int n) = S754_finite (n <? 0) m e /\
    - 52 <= e <= 0 /\
    Zpos m = Z.abs n * 2 ^ (- e).
Proof.
  intros Hn Hn0. apply Binary64MoreFacts.double_of_int_exact; [exact Hn0 | ].
  unfold Int32.in_range, Int32.min, Int32.max in Hn. lia.
Qed.

(* ================================================================= *)
(** ** The further properties at concrete inputs *)

(** The raster buffer keeps the contract of the resize operation. *)
Lemma RasterImage_laws : PixelBufferLaws RasterImage.
Proof. split; reflexivity. Qed.

Lemma MapSolver_new_channels_agree_witness :
  exists solver : MapSolver ScaleModel RasterImage string,
    MapSolver_new {| downsampling_scale := 2 |}
      [example_image 0; wide_image] false = Ok solver /\
    [example_image 0; wide_image] <> [] /\
    Forall (fun image => ImageData_GetNumChannels image = num_channels_ solver)
           [example_image 0; wide_image] /\
    regularizers_ solver = [] /\
    image_model_ solver = {| downsampling_scale := 2 |} /\
    print_solver_output_ solver = false.
Proof.
  eexists. split; [reflexivity | ].
  apply (MapSolver_new_channels_agree (Regularizer := string)
           {| downsampling_scale := 2 |} [example_image 0; wide_image] false).
  reflexivity.
Defined.

(** The second image is 8 x 5 and the first 4 x 3: both become 8 x 6. *)
Lemma MapSolver_new_size_from_first_witness :
  exists solver : MapSolver ScaleModel RasterImage string,
    MapSolver_new {| downsampling_scale := 2 |}
      (example_image 0 :: [wide_image]) false = Ok solver /\
    image_size_ solver = {| width := 8; height := 6 |} /\
    observations_ solver =
      map (fun image =>
             ImageData_ResizeImage image (image_size_ solver)
               INTERPOLATE_NEAREST)
          (example_image 0 :: [wide_image]).
Proof.
  eexists. split; [reflexivity | ].
  exact (MapSolver_new_size_from_first (Regularizer := string)
           {| downsampling_scale := 2 |} (example_image 0) [wide_image] false
           _ eq_refl).
Defined.

Lemma MapSolver_new_observations_uniform_witness :
  exists solver : MapSolver ScaleModel RasterImage string,
    MapSolver_new {| downsampling_scale := 2 |}
      [example_image 0; wide_image] false = Ok solver /\
    Forall (fun observation =>
              ImageData_GetImageSize observation = image_size_ solver /\
              ImageData_GetNumChannels observation = num_channels_ solver)
           (observations_ solver).
Proof.
  eexists. split; [reflexivity | ].
  apply (MapSolver_new_observations_uniform (Regularizer := string)
           (laws := RasterImage_laws)
           {| downsampling_scale := 2 |} [example_image 0; wide_image] false).
  reflexivity.
Defined.

Lemma MapSolver_new_no_adaptation_witness :
  exists solver : MapSolver ScaleModel RasterImage string,
    MapSolver_new {| downsampling_scale := 2 |}
      [example_image 0; example_image 100] false = Ok solver /\
    exists sum,
      GetRegularizationParameterSum solver = Ok (sum, solver) /\
      sum = 0%float /\
      AdjustThresholdsAdaptively 144 sum example_options
        = Ok (tt, example_options).
Proof.
  eexists. split; [reflexivity | ].
  apply (MapSolver_new_no_adaptation (Regularizer := string)
           {| downsampling_scale := 2 |}
           [example_image 0; example_image 100] false _ example_options 144).
  - reflexivity.
  - vm_compute. split; discriminate.
Defined.

Lemma MapSolver_new_data_points_witness :
  exists solver : MapSolver ScaleModel RasterImage string,
    MapSolver_new {| downsampling_scale := 2 |}
      (example_image 0 :: [example_image 100]) false = Ok solver /\
    GetNumDataPoints solver = Ok (4 * 2 * (3 * 2) * 3, solver).
Proof.
  apply (MapSolver_new_data_points (Regularizer := string)
           {| downsampling_scale := 2 |}
           (example_image 0) [example_image 100] false 3 4 3 2).
  - vm_compute. discriminate.
  - repeat constructor.
  - reflexivity.
  - reflexivity.
  - lia.
  - vm_compute. split; discriminate.
  - vm_compute. split; discriminate.
  - vm_compute. split; discriminate.
  - vm_compute. split; discriminate.
Defined.

Lemma GetRegularizationParameterSum_nonneg_witness :
  exists sum,
    GetRegularizationParameterSum weighted_solver = Ok (sum, weighted_solver) /\
    (0 <=? sum)%float = true.
Proof.
  apply (GetRegularizationParameterSum_nonneg weighted_solver).
  repeat constructor.
Defined.

Lemma AdjustThresholdsAdaptively_finite_sum_witness :
  exists o',
    AdjustThresholdsAdaptively 30000 0.5%float example_options = Ok (tt, o') /\
    (gradient_norm_threshold example_options
       <=? gradient_norm_threshold o')%float = true /\
    (cost_decrease_threshold example_options
       <=? cost_decrease_threshold o')%float = true /\
    (parameter_variation_threshold example_options
       <=? parameter_variation_threshold o')%float = true /\
    (0 <? gradient_norm_threshold o')%float = true /\
    (0 <? cost_decrease_threshold o')%float = true /\
    (0 <? parameter_variation_threshold o')%float = true.
Proof.
  apply (AdjustThresholdsAdaptively_finite_sum example_options 30000 0.5%float).
  - vm_compute. split; discriminate.
  - vm_compute. reflexivity.
  - vm_compute. reflexivity.
  - vm_compute. reflexivity.
  - vm_compute. reflexivity.
  - vm_compute. reflexivity.
Defined.

Lemma AdjustThresholdsAdaptively_negative_sum_witness :
  AdjustThresholdsAdaptively 30000 (-0.5)%float example_options
    = Ok (tt, example_options).
Proof.
  apply (AdjustThresholdsAdaptively_negative_sum
           example_options 30000 (-0.5)%float).
  - vm_compute. split; discriminate.
  - vm_compute. reflexivity.
Defined.

Lemma double_of_int_exact_on_int_witness :
  exists m e,
    Prim2SF (double_of_int (-30000)) = S754_finite (-30000 <? 0) m e /\
    - 52 <= e <= 0 /\
    Zpos m = Z.abs (-30000) * 2 ^ (- e).
Proof.
  apply (double_of_int_exact_on_int (-30000)).
  - vm_compute. split; discriminate.
  - discriminate.
Defined.

Lemma GetRegularizationParameterSum_nan_witness :
  GetRegularizationParameterSum nan_weight_solver = Ok (nan, nan_weight_solver).
Proof.
  apply (GetRegularizationParameterSum_nan nan_weight_solver).
  apply Exists_cons_tl, Exists_cons_hd. vm_compute. reflexivity.
Defined.

Lemma AdjustThresholdsAdaptively_nan_sum_witness :
  exists o',
    AdjustThresholdsAdaptively 30000 nan example_options = Ok (tt, o') /\
    gradient_norm_threshold o' = nan /\
    cost_decrease_threshold o' = nan /\
    parameter_variation_threshold o' = nan.
Proof.
  apply (AdjustThresholdsAdaptively_nan_sum example_options 30000 nan).
  vm_compute. reflexivity.
Defined.

(** The strip doubled is 2147483648 pixels wide, one more than the
    largest [int]: construction succeeds and records the width
    -2147483648, not the product. *)
Lemma MapSolver_new_size_overflow :
  [strip_image] <> [] /\
  Forall (fun image =>
            ImageData_GetNumChannels image = 1 /\
            ImageData_GetImageSize image
            = {| width := 1073741824; height := 3 |})
         [strip_image] /\
  ImageModel_GetDownsamplingScale {| downsampling_scale := 2 |} = 2 /\
  1 <= 2 /\
  exists solver : MapSolver ScaleModel RasterImage string,
    MapSolver_new {| downsampling_scale := 2 |} [strip_image] false
      = Ok solver /\
    image_size_ solver = {| width := -2147483648; height := 6 |} /\
    image_size_ solver <> {| width := 1073741824 * 2; height := 3 * 2 |}.
Proof.
  split; [discriminate | ].
  split; [repeat constructor | ].
  split; [reflexivity | ]. split; [lia | ].
  eexists. split; [reflexivity | ]. split; [reflexivity | ].
  vm_compute. discriminate.
Qed.

(** With no parameter and an infinite weight sum, both inside "at least
    zero", positive thresholds are neither kept nor grown: each becomes
    "not a number", and is not at least its former value. *)
Lemma AdjustThresholdsAdaptively_not_kept_or_grown :
  (0 <? gradient_norm_threshold example_options)%float = true /\
  (0 <? cost_decrease_threshold example_options)%float = true /\
  (0 <? parameter_variation_threshold example_options)%float = true /\
  0 <= 0 /\
  (0 <=? infinity)%float = true /\
  exists o',
    AdjustThresholdsAdaptively 0 infinity example_options = Ok (tt, o') /\
    gradient_norm_threshold o' = nan /\
    cost_decrease_threshold o' = nan /\
    parameter_variation_threshold o' = nan /\
    (gradient_norm_threshold example_options
       <=? gradient_norm_threshold o')%float = false /\
    (cost_decrease_threshold example_options
       <=? cost_decrease_threshold o')%float = false /\
    (parameter_variation_threshold example_options
       <=? parameter_variation_threshold o')%float = false.
Proof.
  do 3 (split; [vm_compute; reflexivity | ]).
  split; [lia | ]. split; [vm_compute; reflexivity | ].
  eexists. repeat split; vm_compute; reflexivity.
Qed.

Lemma AdjustThresholdsAdaptively_kept_or_grown_witness :
  exists o',
    AdjustThresholdsAdaptively 30000 infinity example_options = Ok (tt, o') /\
    (gradient_norm_threshold example_options
       <=? gradient_norm_threshold o')%float = true /\
    (cost_decrease_threshold example_options
       <=? cost_decrease_threshold o')%float = true /\
    (parameter_variation_threshold example_options
       <=? parameter_variation_threshold o')%float = true.
Proof.
  apply (AdjustThresholdsAdaptively_kept_or_grown
           example_options 30000 infinity).
  - vm_compute. reflexivity.
  - vm_compute. reflexivity.
  - vm_compute. reflexivity.
  - vm_compute. split; discriminate.
  - vm_compute. reflexivity.
  - intros H. discriminate H.
Defined.
